(** * o11y: the byte-staging buffer, the JSON object tokenizer and the
      filter engine of [pkg/filter] and [pkg/honeycomb].

    The Go sources are embedded shallowly:
    - [[]byte] is [list byte], Go [int] is [Z] (64-bit wrap-around is
      written out where an operand is supplied by a caller), slices
      expressions are bounds-checked;
    - a method that may panic returns [option]: [None] is a run-time
      fault (or, for a fuelled loop, no answer within the fuel);
    - a method with a pointer receiver takes the receiver's state and
      returns the new one. *)

From Stdlib Require Import ZArith List Lia Bool Arith.
From Stdlib Require Import Strings.Byte Strings.String.
Import ListNotations.

Local Open Scope Z_scope.

(** ** Go preliminaries *)

Module Go.

Definition len {A} (s : list A) : Z := Z.of_nat (List.length s).

(** [s[i]], faulting out of range. *)
Definition elem {A} (s : list A) (i : Z) : option A :=
  if (0 <=? i) && (i <? len s) then nth_error s (Z.to_nat i) else None.

(** [s[lo:hi]], faulting unless [0 <= lo <= hi <= len s]
    (no slice of this program is taken beyond its length). *)
Definition slice {A} (s : list A) (lo hi : Z) : option (list A) :=
  if (0 <=? lo) && (lo <=? hi) && (hi <=? len s)
  then Some (firstn (Z.to_nat (hi - lo)) (skipn (Z.to_nat lo) s))
  else None.

Definition slice_from {A} (s : list A) (lo : Z) : option (list A) :=
  slice s lo (len s).

Definition slice_to {A} (s : list A) (hi : Z) : option (list A) :=
  slice s 0 hi.

(** The errors of the program and of the library functions it calls. *)
Inductive error :=
| EOF                 (* io.EOF *)
| ErrNoRoom           (* "insufficient capacity" *)
| ErrIncompleteJSON   (* errors.New("incomplete JSON object") *)
| ErrNoProgress       (* io.ErrNoProgress *)
| ErrTooLong          (* bufio.ErrTooLong *)
| ErrNegativeAdvance  (* bufio.ErrNegativeAdvance *)
| ErrAdvanceTooFar    (* bufio.ErrAdvanceTooFar *)
| ErrBadReadCount.    (* bufio.ErrBadReadCount *)

Definition error_eqb (a b : error) : bool :=
  match a, b with
  | EOF, EOF | ErrNoRoom, ErrNoRoom | ErrIncompleteJSON, ErrIncompleteJSON
  | ErrNoProgress, ErrNoProgress | ErrTooLong, ErrTooLong
  | ErrNegativeAdvance, ErrNegativeAdvance
  | ErrAdvanceTooFar, ErrAdvanceTooFar
  | ErrBadReadCount, ErrBadReadCount => true
  | _, _ => false
  end.

(** [err.Error()] *)
Definition Error (e : error) : string :=
  match e with
  | EOF => "EOF"
  | ErrNoRoom => "insufficient capacity"
  | ErrIncompleteJSON => "incomplete JSON object"
  | ErrNoProgress => "multiple Read calls return no data or error"
  | ErrTooLong => "bufio.Scanner: token too long"
  | ErrNegativeAdvance => "bufio.Scanner: SplitFunc returns negative advance count"
  | ErrAdvanceTooFar => "bufio.Scanner: SplitFunc returns advance count beyond input"
  | ErrBadReadCount => "bufio.Scanner: Read returned impossible count"
  end%string.

(** Two's complement wrap-around of the 64-bit [int]. *)
Definition max_int : Z := 9223372036854775807.       (* 2^63 - 1 *)
Definition min_int : Z := -9223372036854775808.      (* -2^63 *)
Definition wrap (z : Z) : Z :=
  (z + 9223372036854775808) mod 18446744073709551616 - 9223372036854775808.

Definition add (a b : Z) : Z := wrap (a + b).
Definition sub (a b : Z) : Z := wrap (a - b).
Definition mul (a b : Z) : Z := wrap (a * b).

(** [a % b]: truncated remainder, faulting on a zero divisor. *)
Definition rem (a b : Z) : option Z :=
  if b =? 0 then None else Some (Z.rem a b).

(** [a / b] on [int]: truncated quotient, faulting on a zero divisor. *)
Definition quo (a b : Z) : option Z :=
  if b =? 0 then None else Some (wrap (Z.quot a b)).

(** [copy(s[lo:hi], src)]: the elements of [s] after the copy and the
    number of elements copied, the smaller of the two lengths. *)
Definition copy_into {A} (s : list A) (lo hi : Z) (src : list A)
  : option (list A * Z) :=
  match slice s lo hi with
  | None => None
  | Some dst =>
      let n := Z.min (len dst) (len src) in
      Some (firstn (Z.to_nat lo) s ++ firstn (Z.to_nat n) src
              ++ skipn (Z.to_nat (lo + n)) s, n)
  end.

(** [copy(s, src)] *)
Definition copy {A} (s src : list A) : option (list A * Z) :=
  copy_into s 0 (len s) src.

(** [make([]byte, n)] *)
Definition make_bytes (n : Z) : option (list byte) :=
  if n <? 0 then None else Some (repeat x00 (Z.to_nat n)).

(** Sequencing of calls that may fault. *)
Definition bind {A B} (x : option A) (f : A -> option B) : option B :=
  match x with Some a => f a | None => None end.

End Go.

Notation "x <- e ;; k" := (Go.bind e (fun x => k))
  (at level 61, e at next level, right associativity).
Notation "' p <- e ;; k" := (Go.bind e (fun p => k))
  (at level 61, p pattern, e at next level, right associativity).

Import Go.

(** ** [filter.go], second part: the JSON object tokenizer *)

Module Tokenizer.

Definition lbrace : byte := x7b.
Definition rbrace : byte := x7d.
Definition quote : byte := x22.
Definition backslash : byte := x5c.

(** [bytes.IndexByte]: index of the first [c], or -1. *)
Fixpoint IndexByte_from (data : list byte) (c : byte) (i : Z) : Z :=
  match data with
  | [] => -1
  | b :: rest => if Byte.eqb b c then i else IndexByte_from rest c (i + 1)
  end.

Definition IndexByte (data : list byte) (c : byte) : Z :=
  IndexByte_from data c 0.

(** [matchQuote]: one unit of fuel per iteration of the [for]. *)
Fixpoint matchQuote (fuel : nat) (data : list byte) (i : Z)
  : option (Z * bool) :=
  match fuel with
  | O => None
  | S fuel' =>
      if i <? len data then
        match elem data i with
        | None => None
        | Some b =>
            if Byte.eqb b backslash then
              (* i++ in the case, i++ of the loop *)
              matchQuote fuel' data (i + 1 + 1)
            else if Byte.eqb b quote then Some (i, true)
            else matchQuote fuel' data (i + 1)
        end
      else Some (-1, false)
  end.

(** [matchBrace]: one unit of fuel per iteration and per nested call. *)
Fixpoint matchBrace (fuel : nat) (data : list byte) (i : Z)
  : option (Z * bool) :=
  match fuel with
  | O => None
  | S fuel' =>
      if i <? len data then
        match elem data i with
        | None => None
        | Some b =>
            if Byte.eqb b rbrace then Some (i, true)
            else if Byte.eqb b quote then
              match matchQuote fuel' data (i + 1) with
              | None => None
              | Some (_, false) => Some (-1, false)
              | Some (newi, true) => matchBrace fuel' data (newi + 1)
              end
            else if Byte.eqb b lbrace then
              match matchBrace fuel' data (i + 1) with
              | None => None
              | Some (_, false) => Some (-1, false)
              | Some (newi, true) => matchBrace fuel' data (newi + 1)
              end
            else matchBrace fuel' data (i + 1)
        end
      else Some (-1, false)
  end.

(** What a [bufio.SplitFunc] returns: [(advance, token, err)];
    a [nil] token is [None]. *)
Definition split_result : Type := Z * option (list byte) * option error.

Definition SplitFunc : Type := list byte -> bool -> option split_result.

Definition JSONSplit : SplitFunc := fun data atEOF =>
  if atEOF && (len data =? 0) then Some (0, None, None)
  else
    let start := IndexByte data lbrace in
    if start =? -1 then Some (0, None, None)
    else
      match matchBrace (S (List.length data)) data (start + 1) with
      | None => None
      | Some (_, false) =>
          if atEOF then Some (0, None, Some ErrIncompleteJSON)
          else Some (0, None, None)
      | Some (end_, true) =>
          let end_ := end_ + 1 in
          match slice data start end_ with
          | None => None
          | Some tok => Some (end_, Some tok, None)
          end
      end.

(** *** The tokenizer as the specification words it

    A depth-aware scan of the bytes after the opening brace: [depth]
    open braces are pending; inside a string literal a backslash
    escapes the next byte and nothing is a delimiter until the closing
    quote.  The result is the offset of the brace that closes the
    outermost pending one. *)

Inductive mode := Code | InString | Escaped.

Fixpoint depth_scan (depth : nat) (m : mode) (l : list byte) : option nat :=
  match l with
  | [] => None
  | b :: rest =>
      match m with
      | Escaped => option_map S (depth_scan depth InString rest)
      | InString =>
          if Byte.eqb b backslash then option_map S (depth_scan depth Escaped rest)
          else if Byte.eqb b quote then option_map S (depth_scan depth Code rest)
          else option_map S (depth_scan depth InString rest)
      | Code =>
          if Byte.eqb b rbrace then
            match depth with
            | O | S O => Some O
            | S d => option_map S (depth_scan d Code rest)
            end
          else if Byte.eqb b quote then option_map S (depth_scan depth InString rest)
          else if Byte.eqb b lbrace then option_map S (depth_scan (S depth) Code rest)
          else option_map S (depth_scan depth Code rest)
      end
  end.

(** An offset found [k] bytes further on. *)
Definition shift (k : nat) (o : option nat) : option nat :=
  option_map (Nat.add k) o.

(** Offset of the quote that closes a string literal, from inside
    the literal. *)
Fixpoint string_end (m : mode) (l : list byte) : option nat :=
  match l with
  | [] => None
  | b :: rest =>
      match m with
      | Code => None
      | Escaped => option_map S (string_end InString rest)
      | InString =>
          if Byte.eqb b backslash then option_map S (string_end Escaped rest)
          else if Byte.eqb b quote then Some O
          else option_map S (string_end InString rest)
      end
  end.

(** Offset of the first opening brace. *)
Fixpoint first_lbrace (l : list byte) : option nat :=
  match l with
  | [] => None
  | b :: rest => if Byte.eqb b lbrace then Some O
                 else option_map S (first_lbrace rest)
  end.

Definition object_split (window : list byte) (atEnd : bool) : split_result :=
  match first_lbrace window with
  | None => (0, None, None)       (* nothing but noise: wait for more *)
  | Some s =>
      match depth_scan 1 Code (skipn (S s) window) with
      | Some k =>
          (* token from the opening brace to its match, inclusive;
             the advance counts the discarded noise *)
          (Z.of_nat (s + k + 2),
           Some (firstn (k + 2) (skipn s window)), None)
      | None =>
          if atEnd then (0, None, Some ErrIncompleteJSON)
          else (0, None, None)
      end
  end.

(** *** Sample streams *)

Definition bytes (s : string) : list byte := list_byte_of_string s.

(** The objects with one member [a] equal to 1, [b] equal to 2. *)
Definition object_a : list byte :=
  bytes "{" ++ [quote] ++ bytes "a" ++ [quote] ++ bytes ":1}".
Definition object_b : list byte :=
  bytes "{" ++ [quote] ++ bytes "b" ++ [quote] ++ bytes ":2}".

(** [junk], the first object, [more], the second object. *)
Definition noisy_stream : list byte :=
  bytes "junk" ++ object_a ++ bytes "more" ++ object_b.

(** An object cut after the colon. *)
Definition cut_object : list byte :=
  bytes "{" ++ [quote] ++ bytes "a" ++ [quote] ++ bytes ":".

(** An object whose string member holds a closing brace. *)
Definition quoted_brace : list byte :=
  bytes "{" ++ [quote] ++ bytes "a" ++ [quote] ++ bytes ":" ++ [quote]
    ++ bytes "}" ++ [quote] ++ bytes "}".

End Tokenizer.

(** ** Rings of storage *)

Module Ring.

(** The [l] elements of the ring [B] from position [i] on, around the
    end. *)
Definition window {A} (B : list A) (i l : nat) : list A :=
  firstn l (skipn i (B ++ B)).

(** [B] overwritten from position [s] on with [p]. *)
Definition overwrite {A} (B : list A) (s : nat) (p : list A) : list A :=
  firstn s B ++ p ++ skipn (s + List.length p) B.

End Ring.

(** ** A [chan struct{}] with a buffer of one value *)

Module Chan.

Record t := { pending : bool; closed : bool }.

(** [make(chan struct{}, 1)] *)
Definition make : t := {| pending := false; closed := false |}.

(** [select { case c <- struct{}{}: default: }]: a send that does not
    block; the value is dropped when the slot is taken.  Sending on a
    closed channel faults. *)
Definition try_send (c : t) : option t :=
  if closed c then None
  else Some {| pending := true; closed := false |}.

(** [close(c)]: closing a closed channel faults. *)
Definition close (c : t) : option t :=
  if closed c then None
  else Some {| pending := pending c; closed := true |}.

(** [<-c]: takes the buffered value if there is one; on a closed and
    empty channel yields the zero value at once; otherwise blocks. *)
Inductive recv_result := Received (c' : t) | WouldBlock.

Definition recv (c : t) : recv_result :=
  if pending c then Received {| pending := false; closed := closed c |}
  else if closed c then Received c
  else WouldBlock.

End Chan.

(** ** [circularBuffer.go]

    The file exists in two versions.  They share the struct and every
    method but [Write]: the first rejects a write that does not fit
    ([FailFast.Write]), the second grows the storage
    ([AutoGrow.Write]).  The second version moves the bodies of [Peek]
    and [Consume] to the private [peek] and [consume] unchanged; each
    public method holds the mutex from entry to return, so a call is
    one atomic transition of the state. *)

Module CircularBuffer.

Record t := {
  C : Chan.t;
  buf : list byte;
  len : Z;
  index : Z;
  closed : bool
}.

Definition set_C (c : t) (ch : Chan.t) : t :=
  {| C := ch; buf := buf c; len := len c; index := index c; closed := closed c |}.
Definition set_buf (c : t) (b : list byte) : t :=
  {| C := C c; buf := b; len := len c; index := index c; closed := closed c |}.
Definition set_len (c : t) (n : Z) : t :=
  {| C := C c; buf := buf c; len := n; index := index c; closed := closed c |}.
Definition set_index (c : t) (i : Z) : t :=
  {| C := C c; buf := buf c; len := len c; index := i; closed := closed c |}.
Definition set_closed (c : t) (b : bool) : t :=
  {| C := C c; buf := buf c; len := len c; index := index c; closed := b |}.

Definition NewCircularBuffer (capacity : Z) : option t :=
  b <- make_bytes capacity ;;
  Some {| C := Chan.make; buf := b; len := 0; index := 0; closed := false |}.

Definition addLen (c : t) (n : Z) : option t :=
  let c := set_len c (add (len c) n) in
  if negb (len c =? 0) && negb (closed c) then
    ch <- Chan.try_send (C c) ;;
    Some (set_C c ch)
  else Some c.

Definition consume (c : t) (n : Z) : option (t * Z) :=
  let n := if n >? len c then len c else n in
  i <- rem (add (index c) n) (Go.len (buf c)) ;;
  c <- addLen (set_index c i) (wrap (- n)) ;;
  Some (c, n).

(** [peek] fills [p] and returns it with the count. *)
Definition peek (c : t) (p : list byte)
  : option (list byte * Z * option error) :=
  if (len c =? 0) && closed c then Some (p, 0, Some EOF)
  else
    let l := Go.len p in
    let l := if l >? len c then len c else l in
    let leftBeforeEnd := sub (Go.len (buf c)) (index c) in
    if l <? leftBeforeEnd then
      src <- slice (buf c) (index c) (add (index c) l) ;;
      '(p, n) <- copy p src ;;
      Some (p, n, None)
    else
      src <- slice_from (buf c) (index c) ;;
      '(p, n) <- copy p src ;;
      src <- slice_to (buf c) (sub l n) ;;
      '(p, m) <- copy_into p n (Go.len p) src ;;
      Some (p, add n m, None).

Definition Peek := peek.
Definition Consume := consume.

Definition Read (c : t) (p : list byte)
  : option (t * list byte * Z * option error) :=
  '(p, n, err) <- peek c p ;;
  match err with
  | Some e => Some (c, p, n, Some e)
  | None => '(c, n) <- consume c n ;; Some (c, p, n, None)
  end.

Definition Capacity (c : t) : Z := Go.len (buf c).
Definition Len (c : t) : Z := len c.
Definition Listen (c : t) : Chan.t := C c.

Definition Close (c : t) : option (t * option error) :=
  let c := set_closed c true in
  ch <- Chan.close (C c) ;;
  Some (set_C c ch, None).

(** The part of [Write] after the capacity check, the same in both
    versions. *)
Definition write_at_tail (c : t) (p : list byte)
  : option (t * Z * option error) :=
  startWritingAt <- rem (add (index c) (len c)) (Go.len (buf c)) ;;
  let leftBeforeEnd := sub (Go.len (buf c)) startWritingAt in
  if Go.len p <? leftBeforeEnd then
    '(b, n) <- copy_into (buf c) startWritingAt (Go.len (buf c)) p ;;
    c <- addLen (set_buf c b) (Go.len p) ;;
    Some (c, n, None)
  else
    p1 <- slice_to p leftBeforeEnd ;;
    '(b, n) <- copy_into (buf c) startWritingAt (Go.len (buf c)) p1 ;;
    p2 <- slice_from p leftBeforeEnd ;;
    '(b, m) <- copy_into b 0 startWritingAt p2 ;;
    c <- addLen (set_buf c b) (Go.len p) ;;
    Some (c, add n m, None).

Module FailFast.

Definition Write (c : t) (p : list byte) : option (t * Z * option error) :=
  if closed c then Some (c, 0, Some EOF)
  else if Go.len p >? sub (Go.len (buf c)) (len c) then
    Some (c, 0, Some ErrNoRoom)
  else write_at_tail c p.

End FailFast.

Module AutoGrow.

Definition resize (c : t) (minSize : Z) : option (t * Z * option error) :=
  let quarters := if Go.len (buf c) >? 8192 then 5 else 8 in
  newSize <- quo (mul (Go.len (buf c)) quarters) 4 ;;
  let newSize := if minSize >? newSize then minSize else newSize in
  newbuf <- make_bytes newSize ;;
  '(newbuf, _, err) <- peek c newbuf ;;
  match err with
  | Some e => Some (c, Go.len (buf c), Some e)
  | None =>
      let c := set_index (set_buf c newbuf) 0 in
      Some (c, Go.len (buf c), None)
  end.

Definition Write (c : t) (p : list byte) : option (t * Z * option error) :=
  if closed c then Some (c, 0, Some EOF)
  else
    r <- (if Go.len p >? sub (Go.len (buf c)) (len c) then
            '(c, _, err) <- resize c (add (Go.len p) (len c)) ;;
            Some (c, err)
          else Some (c, None)) ;;
    match r with
    | (_, Some e) => Some (c, 0, Some e)
    | (c, None) => write_at_tail c p
    end.

(** The growth target as the specification words it: double the
    capacity up to 8192 bytes, 125% of it (rounded down) beyond. *)
Definition growth_target (capacity : Z) : Z :=
  if capacity <=? 8192 then 2 * capacity else capacity * 5 / 4.

End AutoGrow.

(** The bytes the buffer holds, oldest first. *)
Definition contents (c : t) : list byte :=
  Ring.window (buf c) (Z.to_nat (index c)) (Z.to_nat (len c)).

(** Well-formed states: the bounds of the data model (a buffer of
    capacity 0 keeps its cursor at 0), a capacity small enough for the
    sum of a cursor and a length to be an [int], and the channel closed
    exactly when the buffer is. *)
Definition wf (c : t) : Prop :=
  2 * Go.len (buf c) <= max_int /\
  0 <= len c <= Go.len (buf c) /\
  0 <= index c /\ (index c < Go.len (buf c) \/ index c = 0) /\
  Chan.closed (C c) = closed c.

(** A buffer of capacity 4 whose three bytes wrap around the end. *)
Definition sample : t :=
  {| C := Chan.make; buf := [x61; x62; x63; x64]; len := 3; index := 2;
     closed := false |}.

(** *** Sequences of calls

    A client of the first version of the buffer writing slices and
    reading into destinations of given sizes; what each call returned
    is recorded in order. *)

Inductive op :=
| OpWrite (p : list byte)
| OpRead (size : nat).

Inductive event :=
| Wrote (n : Z) (err : option error)
| Got (bytes : list byte) (err : option error).

Fixpoint run (c : t) (ops : list op) : option (t * list event) :=
  match ops with
  | [] => Some (c, [])
  | OpWrite p :: rest =>
      '(c, n, e) <- FailFast.Write c p ;;
      '(c, evs) <- run c rest ;;
      Some (c, Wrote n e :: evs)
  | OpRead size :: rest =>
      '(c, p, n, e) <- Read c (repeat x00 size) ;;
      '(c, evs) <- run c rest ;;
      Some (c, Got (firstn (Z.to_nat n) p) e :: evs)
  end.

(** The bytes passed to the writes, and the bytes the reads returned. *)
Fixpoint written (ops : list op) : list byte :=
  match ops with
  | [] => []
  | OpWrite p :: rest => p ++ written rest
  | OpRead _ :: rest => written rest
  end.

Fixpoint read_back (evs : list event) : list byte :=
  match evs with
  | [] => []
  | Got b _ :: rest => b ++ read_back rest
  | Wrote _ _ :: rest => read_back rest
  end.

(** Every write was accepted whole. *)
Fixpoint writes_accepted (ops : list op) (evs : list event) : Prop :=
  match ops, evs with
  | [], [] => True
  | OpWrite p :: ops, Wrote n e :: evs =>
      n = Go.len p /\ e = None /\ writes_accepted ops evs
  | OpRead _ :: ops, Got _ _ :: evs => writes_accepted ops evs
  | _, _ => False
  end.

(** The occupancy, starting from [occ], never exceeds [capacity]. *)
Fixpoint fits (capacity occ : nat) (ops : list op) : Prop :=
  match ops with
  | [] => True
  | OpWrite p :: rest =>
      (occ + List.length p <= capacity)%nat
      /\ fits capacity (occ + List.length p) rest
  | OpRead size :: rest => fits capacity (occ - Nat.min size occ) rest
  end.

End CircularBuffer.

(** ** The [bufio.Scanner] the filter reads its buffer with

    The scanner of the Go standard library, reading from a
    [CircularBuffer].  No split function of this program returns
    [bufio.ErrFinalToken], which is not among the errors here. *)

Module Bufio.

Import Tokenizer.

Definition MaxScanTokenSize : Z := 64 * 1024.
Definition startBufSize : Z := 4096.
Definition maxConsecutiveEmptyReads : Z := 100.

Definition cr : byte := x0d.
Definition nl : byte := x0a.

Definition dropCR (data : list byte) : option (list byte) :=
  if Go.len data >? 0 then
    b <- elem data (Go.len data - 1) ;;
    if Byte.eqb b cr then slice data 0 (Go.len data - 1) else Some data
  else Some data.

Definition ScanLines : SplitFunc := fun data atEOF =>
  if atEOF && (Go.len data =? 0) then Some (0, None, None)
  else
    let i := IndexByte data nl in
    if i >=? 0 then
      line <- slice data 0 i ;;
      tok <- dropCR line ;;
      Some (i + 1, Some tok, None)
    else if atEOF then
      tok <- dropCR data ;;
      Some (Go.len data, Some tok, None)
    else Some (0, None, None).

Record Scanner := {
  split : SplitFunc;
  maxTokenSize : Z;
  token : option (list byte);
  buf : list byte;
  start : Z;
  end_ : Z;
  err : option error;
  empties : Z;
  scanCalled : bool;
  done : bool
}.

Definition set_split s f :=
  {| split := f; maxTokenSize := maxTokenSize s; token := token s;
     buf := buf s; start := start s; end_ := end_ s; err := err s;
     empties := empties s; scanCalled := scanCalled s; done := done s |}.
Definition set_token s t :=
  {| split := split s; maxTokenSize := maxTokenSize s; token := t;
     buf := buf s; start := start s; end_ := end_ s; err := err s;
     empties := empties s; scanCalled := scanCalled s; done := done s |}.
Definition set_buf s b :=
  {| split := split s; maxTokenSize := maxTokenSize s; token := token s;
     buf := b; start := start s; end_ := end_ s; err := err s;
     empties := empties s; scanCalled := scanCalled s; done := done s |}.
Definition set_start s i :=
  {| split := split s; maxTokenSize := maxTokenSize s; token := token s;
     buf := buf s; start := i; end_ := end_ s; err := err s;
     empties := empties s; scanCalled := scanCalled s; done := done s |}.
Definition set_end s i :=
  {| split := split s; maxTokenSize := maxTokenSize s; token := token s;
     buf := buf s; start := start s; end_ := i; err := err s;
     empties := empties s; scanCalled := scanCalled s; done := done s |}.
Definition set_err s e :=
  {| split := split s; maxTokenSize := maxTokenSize s; token := token s;
     buf := buf s; start := start s; end_ := end_ s; err := e;
     empties := empties s; scanCalled := scanCalled s; done := done s |}.
Definition set_empties s n :=
  {| split := split s; maxTokenSize := maxTokenSize s; token := token s;
     buf := buf s; start := start s; end_ := end_ s; err := err s;
     empties := n; scanCalled := scanCalled s; done := done s |}.
Definition set_scanCalled s b :=
  {| split := split s; maxTokenSize := maxTokenSize s; token := token s;
     buf := buf s; start := start s; end_ := end_ s; err := err s;
     empties := empties s; scanCalled := b; done := done s |}.

Definition NewScanner : Scanner :=
  {| split := ScanLines; maxTokenSize := MaxScanTokenSize; token := None;
     buf := []; start := 0; end_ := 0; err := None; empties := 0;
     scanCalled := false; done := false |}.

(** [Split] faults once scanning has started. *)
Definition Split (s : Scanner) (f : SplitFunc) : option Scanner :=
  if scanCalled s then None else Some (set_split s f).

Definition is_set {A} (o : option A) : bool :=
  match o with Some _ => true | None => false end.

Definition setErr (s : Scanner) (e : error) : Scanner :=
  match err s with
  | None | Some EOF => set_err s (Some e)
  | Some _ => s
  end.

Definition Err (s : Scanner) : option error :=
  match err s with
  | Some EOF => None
  | e => e
  end.

Definition Bytes (s : Scanner) : option (list byte) := token s.

Definition advance (s : Scanner) (n : Z) : Scanner * bool :=
  if n <? 0 then (setErr s ErrNegativeAdvance, false)
  else if n >? sub (end_ s) (start s) then (setErr s ErrAdvanceTooFar, false)
  else (set_start s (add (start s) n), true).

(** The inner loop of [Scan]: read until some bytes arrive, an error
    is reported, or too many reads in a row return nothing. *)
Fixpoint read_input (fuel : nat) (s : Scanner) (r : CircularBuffer.t)
  (loop : Z) : option (Scanner * CircularBuffer.t) :=
  match fuel with
  | O => None
  | S fuel' =>
      p <- slice (buf s) (end_ s) (Go.len (buf s)) ;;
      '(r, p, n, e) <- CircularBuffer.Read r p ;;
      let s := set_buf s (firstn (Z.to_nat (end_ s)) (buf s) ++ p) in
      if (n <? 0) || (sub (Go.len (buf s)) (end_ s) <? n) then
        Some (setErr s ErrBadReadCount, r)
      else
        let s := set_end s (add (end_ s) n) in
        match e with
        | Some e => Some (setErr s e, r)
        | None =>
            if n >? 0 then Some (set_empties s 0, r)
            else
              let loop := add loop 1 in
              if loop >? maxConsecutiveEmptyReads
              then Some (setErr s ErrNoProgress, r)
              else read_input fuel' s r loop
        end
  end.

(** Making room before a read: shift the pending bytes to the front,
    grow the buffer when it is full.  [inr s] is the scanner ready to
    read, [inl s] the scanner that gave up with [ErrTooLong]. *)
Definition make_room (s : Scanner) : option (Scanner + Scanner) :=
  s <- (if (start s >? 0) &&
           ((end_ s =? Go.len (buf s)) || (start s >? Z.quot (Go.len (buf s)) 2))
        then
          src <- slice (buf s) (start s) (end_ s) ;;
          '(b, _) <- copy (buf s) src ;;
          Some (set_start (set_end (set_buf s b) (sub (end_ s) (start s))) 0)
        else Some s) ;;
  if end_ s =? Go.len (buf s) then
    if (Go.len (buf s) >=? maxTokenSize s)
       || (Go.len (buf s) >? Z.quot max_int 2)
    then Some (inl (setErr s ErrTooLong))
    else
      let newSize := mul (Go.len (buf s)) 2 in
      let newSize := if newSize =? 0 then startBufSize else newSize in
      let newSize := if newSize >? maxTokenSize s then maxTokenSize s
                     else newSize in
      newBuf <- make_bytes newSize ;;
      src <- slice (buf s) (start s) (end_ s) ;;
      '(newBuf, _) <- copy newBuf src ;;
      Some (inr (set_start (set_end (set_buf s newBuf)
                              (sub (end_ s) (start s))) 0))
  else Some (inr s).

(** The outer loop of [Scan], one unit of fuel per iteration. *)
Fixpoint scan_loop (fuel : nat) (s : Scanner) (r : CircularBuffer.t)
  : option (Scanner * CircularBuffer.t * bool) :=
  match fuel with
  | O => None
  | S fuel' =>
      (* [inl] returns from Scan, [inr] goes on to read *)
      st <- (if (end_ s >? start s) || is_set (err s) then
               window <- slice (buf s) (start s) (end_ s) ;;
               '(adv, tok, e) <- split s window (is_set (err s)) ;;
               match e with
               | Some e => Some (inl (setErr s e, false))
               | None =>
                   let '(s, ok) := advance s adv in
                   if negb ok then Some (inl (s, false))
                   else
                     let s := set_token s tok in
                     match tok with
                     | None => Some (inr s)
                     | Some _ =>
                         if negb (is_set (err s)) || (adv >? 0)
                         then Some (inl (set_empties s 0, true))
                         else
                           let s := set_empties s (add (empties s) 1) in
                           if empties s >? maxConsecutiveEmptyReads
                           then None
                           else Some (inl (s, true))
                     end
               end
             else Some (inr s)) ;;
      match st with
      | inl (s, ok) => Some (s, r, ok)
      | inr s =>
          if is_set (err s) then
            Some (set_end (set_start s 0) 0, r, false)
          else
            room <- make_room s ;;
            match room with
            | inl s => Some (s, r, false)
            | inr s =>
                '(s, r) <- read_input 102 s r 0 ;;
                scan_loop fuel' s r
            end
      end
  end.

(** [Scan]: every iteration of the outer loop that does not return
    takes at least one byte from the buffer or records an error, after
    which the next one returns. *)
Definition Scan (s : Scanner) (r : CircularBuffer.t)
  : option (Scanner * CircularBuffer.t * bool) :=
  if done s then Some (s, r, false)
  else
    scan_loop (3 + Z.to_nat (CircularBuffer.len r))
              (set_scanCalled s true) r.

End Bufio.

(** ** [filter.go], first part: the filter engine *)

Module Filter.

Import Tokenizer.

(** The values the engine itself stores in a [map[string]interface{}]
    are strings; the association list is read as a map. *)
Inductive value := VString (s : string).
Definition fields : Type := list (string * value).

(** [Interpreter.Interpret] *)
Definition Interpreter : Type := list byte -> fields -> list byte * fields.

Record Filter := {
  Interpreters : list Interpreter;
  cbuf : CircularBuffer.t
}.

(** The filter together with its goroutine: the goroutine's scanner
    and the calls of [output] so far, oldest first. *)
Record world := {
  fp : Filter;
  scanner : Bufio.Scanner;
  sink : list fields
}.

Definition NewFilter (splitter : SplitFunc) (terps : list Interpreter)
  : option world :=
  cb <- CircularBuffer.NewCircularBuffer 4000 ;;
  sc <- Bufio.Split Bufio.NewScanner splitter ;;
  Some {| fp := {| Interpreters := terps; cbuf := cb |};
          scanner := sc; sink := [] |}.

Definition NewJSONFilter (terps : list Interpreter) : option world :=
  NewFilter JSONSplit terps.

Definition NewLineFilter (terps : list Interpreter) : option world :=
  NewFilter Bufio.ScanLines terps.

(** [Filter.Write] forwards to the buffer's [Write]; [write] is the
    [Write] of either version of the buffer. *)
Definition Write
  (write : CircularBuffer.t -> list byte
           -> option (CircularBuffer.t * Z * option error))
  (w : world) (b : list byte) : option (world * Z * option error) :=
  '(cb, n, e) <- write (cbuf (fp w)) b ;;
  Some ({| fp := {| Interpreters := Interpreters (fp w); cbuf := cb |};
           scanner := scanner w; sink := sink w |}, n, e).

(** The record emitted when the scanner fails. *)
Definition diagnostic (e : error) : fields :=
  [("module", VString "filter"); ("level", VString "error");
   ("error", VString (Error e))]%string.

Definition bytes_or_nil (t : option (list byte)) : list byte :=
  match t with Some b => b | None => [] end.

Definition run_interpreters (terps : list Interpreter) (data : list byte)
  (fs : fields) : list byte * fields :=
  fold_left (fun df i => i (fst df) (snd df)) terps (data, fs).

(** How a statement in the body of a loop ends. *)
Inductive flow (S : Type) :=
| Next (s : S)      (* falls through to the next iteration *)
| Return (s : S)    (* leaves the function *)
| Blocked (s : S)   (* waits on the channel *)
| Fault.            (* panics *)
Arguments Next {S}. Arguments Return {S}.
Arguments Blocked {S}. Arguments Fault {S}.

(** One iteration of the goroutine's [for]: the [select] with its one
    case. *)
Definition iteration (w : world) : flow world :=
  let cb := cbuf (fp w) in
  match Chan.recv (CircularBuffer.C cb) with
  | Chan.WouldBlock => Blocked w
  | Chan.Received ch =>
      let cb := CircularBuffer.set_C cb ch in
      match Bufio.Scan (scanner w) cb with
      | None => Fault
      | Some (sc, cb, ok) =>
          let out :=
            if negb ok then
              match Bufio.Err sc with
              | Some e => sink w ++ [diagnostic e]
              | None => sink w
              end
            else sink w in
          let data := bytes_or_nil (Bufio.Bytes sc) in
          let df := run_interpreters (Interpreters (fp w)) data [] in
          Next {| fp := {| Interpreters := Interpreters (fp w); cbuf := cb |};
                  scanner := sc; sink := out ++ [snd df] |}
      end
  end.

(** [for { body }]: the loop is left only by a [Return] of its body;
    [n] bounds the iterations observed. *)
Fixpoint for_ever {S} (n : nat) (body : S -> flow S) (s : S) : flow S :=
  match n with
  | O => Next s
  | S n' =>
      match body s with
      | Next s' => for_ever n' body s'
      | r => r
      end
  end.

(** The goroutine observed for at most [n] iterations. *)
Definition goroutine (n : nat) (w : world) : flow world :=
  for_ever n iteration w.

(** Closing the filter's buffer (from inside the package: the filter
    has no method for it). *)
Definition close_buffer (w : world) : option world :=
  '(cb, _) <- CircularBuffer.Close (cbuf (fp w)) ;;
  Some {| fp := {| Interpreters := Interpreters (fp w); cbuf := cb |};
          scanner := scanner w; sink := sink w |}.

Definition returned {S} (f : flow S) : bool :=
  match f with Return _ => true | _ => false end.

(** *** Sample filters *)

(** An interpreter that takes the whole token and records its text. *)
Definition capture : Interpreter := fun data fs =>
  ([], ("token"%string, VString (string_of_list_byte data)) :: fs).

(** A JSON filter whose buffer was closed before anything was
    written: closed and drained. *)
Definition closed_filter : option world :=
  w <- NewJSONFilter [] ;; close_buffer w.

(** A JSON filter that was written an object cut after the colon and
    then closed. *)
Definition cut_filter : option world :=
  w <- NewJSONFilter [capture] ;;
  '(w, _, _) <- Write CircularBuffer.AutoGrow.Write w cut_object ;;
  close_buffer w.

(** A JSON filter that was written two complete objects in one
    [Write]. *)
Definition two_objects_filter : option world :=
  w <- NewJSONFilter [capture] ;;
  '(w, _, _) <- Write CircularBuffer.AutoGrow.Write w (object_a ++ object_b) ;;
  Some w.

(** The bytes the scanner holds and has not yet split. *)
Definition pending_window (w : world) : option (list byte) :=
  slice (Bufio.buf (scanner w)) (Bufio.start (scanner w))
        (Bufio.end_ (scanner w)).

(** One wake-up of the goroutine that runs through its iteration. *)
Definition wake_up (w : world) : option world :=
  match iteration w with
  | Next w' => Some w'
  | _ => None
  end.

(** Whether the goroutine, at its next iteration, waits on the
    channel. *)
Definition waits (w : world) : bool :=
  match iteration w with
  | Blocked _ => true
  | _ => false
  end.

(** What is seen of a filter whose scanner has met the end of a closed
    and drained buffer: the channel closed with no pulse pending, a
    split function that asks for nothing at the end of an empty
    stream, the scanner at end of stream with nothing pending. *)
Definition eof_view (w : world)
  : Chan.t * option split_result * option error * Z * Z * bool :=
  (CircularBuffer.C (cbuf (fp w)),
   Bufio.split (scanner w) [] true,
   Bufio.err (scanner w),
   Bufio.start (scanner w), Bufio.end_ (scanner w),
   Bufio.done (scanner w)).

Definition at_eof (w : world) : Prop :=
  eof_view w
  = ({| Chan.pending := false; Chan.closed := true |},
     Some (0, None, None), Some EOF, 0, 0, false).

(** What a goroutine whose scanner holds an error keeps from [w] to
    [w']: the error, and the buffer's bytes, length and capacity. *)
Definition same_bytes (w w' : world) : Prop :=
  Bufio.is_set (Bufio.err (scanner w')) = true /\
  CircularBuffer.contents (cbuf (fp w'))
  = CircularBuffer.contents (cbuf (fp w)) /\
  CircularBuffer.Len (cbuf (fp w')) = CircularBuffer.Len (cbuf (fp w)) /\
  CircularBuffer.Capacity (cbuf (fp w'))
  = CircularBuffer.Capacity (cbuf (fp w)).

(** A filter over the sample buffer, a pulse pending on its channel,
    whose scanner has failed with [io.ErrNoProgress]. *)
Definition failed_filter : world :=
  {| fp := {| Interpreters := [capture];
              cbuf := CircularBuffer.set_C CircularBuffer.sample
                        {| Chan.pending := true; Chan.closed := false |} |};
     scanner := Bufio.set_err
                  (Bufio.set_split Bufio.NewScanner JSONSplit)
                  (Some ErrNoProgress);
     sink := [] |}.


End Filter.

(** ** Clients of the buffer *)

Module Calls.

Import CircularBuffer.







(** A sequence of writes and reads on the second version. *)
Fixpoint run_grow (c : t) (ops : list op) : option (t * list event) :=
  match ops with
  | [] => Some (c, [])
  | OpWrite p :: rest =>
      '(c, n, e) <- AutoGrow.Write c p ;;
      '(c, evs) <- run_grow c rest ;;
      Some (c, Wrote n e :: evs)
  | OpRead size :: rest =>
      '(c, p, n, e) <- Read c (repeat x00 size) ;;
      '(c, evs) <- run_grow c rest ;;
      Some (c, Got (firstn (Z.to_nat n) p) e :: evs)
  end.

End Calls.

(** * Properties *)

(** ** Arithmetic and lists *)

Lemma wrap_small (z : Z) : min_int <= z <= max_int -> wrap z = z.
Proof.
  unfold wrap, min_int, max_int. intros H.
  rewrite Z.mod_small; lia.
Qed.

Lemma rem_once (a b : Z) :
  0 < b -> 0 <= a < 2 * b ->
  Z.rem a b = if a <? b then a else a - b.
Proof.
  intros Hb Ha. rewrite Z.rem_mod_nonneg by lia.
  destruct (Z.ltb_spec a b).
  - apply Z.mod_small; lia.
  - symmetry. apply Z.mod_unique with (q := 1); lia.
Qed.

Lemma len_nonneg {A} (s : list A) : 0 <= Go.len s.
Proof. unfold Go.len. lia. Qed.

Lemma nth_app_if {A} (l1 l2 : list A) (i : nat) (d : A) :
  nth i (l1 ++ l2) d =
  if (i <? List.length l1)%nat then nth i l1 d
  else nth (i - List.length l1) l2 d.
Proof.
  destruct (Nat.ltb_spec i (List.length l1)).
  - now apply app_nth1.
  - now apply app_nth2.
Qed.

Lemma nth_repeat_if {A} (a d : A) (m i : nat) :
  nth i (repeat a m) d = if (i <? m)%nat then a else d.
Proof.
  destruct (Nat.ltb_spec i m).
  - now apply nth_repeat_lt.
  - apply nth_overflow. now rewrite repeat_length.
Qed.

Create Rewrite HintDb lst_len.
Create Rewrite HintDb lst_nth.
#[local] Hint Rewrite @length_app @length_firstn @length_skipn @repeat_length
  : lst_len.
#[local] Hint Rewrite @nth_app_if @nth_firstn @nth_skipn @nth_repeat_if
  @length_app @length_firstn @length_skipn @repeat_length : lst_nth.

(** Case analysis on the comparisons of naturals in the goal, pruning
    the impossible cases as they appear. *)
Ltac split_ltb :=
  repeat match goal with
    | |- context [(?a <? ?b)%nat] => destruct (Nat.ltb_spec a b); try lia
    end.

Ltac same_nth :=
  match goal with
  | |- nth ?a ?l ?d = nth ?b ?l ?d => replace a with b by lia; reflexivity
  end.

(** Name every [Z.to_nat e] with [0 <= e], and decide every [min]. *)
Ltac kill_to_nat :=
  repeat match goal with
    | |- context [Z.to_nat ?e] =>
        let x := fresh "k" in let E := fresh "Ek" in
        remember (Z.to_nat e) as x eqn:E in *;
        apply (f_equal Z.of_nat) in E; rewrite Z2Nat.id in E by lia
    end.

Ltac kill_min :=
  repeat first [ rewrite Nat.min_l by lia | rewrite Nat.min_r by lia ].

Ltac int_arith :=
  unfold add, sub, mul;
  rewrite ?wrap_small by (unfold min_int, max_int; lia).

(** [slice], [copy_into] and [rem] on arguments that are naturals. *)
Lemma slice_nat {A} (s : list A) (a b : nat) :
  (a <= b <= List.length s)%nat ->
  slice s (Z.of_nat a) (Z.of_nat b) = Some (firstn (b - a) (skipn a s)).
Proof.
  intros H. unfold slice, Go.len.
  replace ((0 <=? Z.of_nat a) && (Z.of_nat a <=? Z.of_nat b)
           && (Z.of_nat b <=? Z.of_nat (List.length s))) with true.
  - rewrite <- Nat2Z.inj_sub, !Nat2Z.id by lia. reflexivity.
  - symmetry. rewrite !andb_true_iff, !Z.leb_le. lia.
Qed.

Lemma copy_into_nat {A} (s : list A) (a b : nat) (src : list A) :
  (a <= b <= List.length s)%nat ->
  copy_into s (Z.of_nat a) (Z.of_nat b) src =
  Some (firstn a s ++ firstn (Nat.min (b - a) (List.length src)) src
          ++ skipn (a + Nat.min (b - a) (List.length src)) s,
        Z.of_nat (Nat.min (b - a) (List.length src))).
Proof.
  intros H. unfold copy_into. rewrite slice_nat by assumption.
  unfold Go.len. rewrite length_firstn, length_skipn.
  rewrite <- Nat2Z.inj_min, <- Nat2Z.inj_add, !Nat2Z.id.
  replace (Nat.min (Nat.min (b - a) (List.length s - a)) (List.length src))
    with (Nat.min (b - a) (List.length src)) by lia.
  reflexivity.
Qed.

Lemma rem_nat (a b : nat) :
  (0 < b)%nat -> (a < 2 * b)%nat ->
  rem (Z.of_nat a) (Z.of_nat b) =
  Some (Z.of_nat (if (a <? b)%nat then a else a - b)).
Proof.
  intros Hb Ha. unfold rem.
  destruct (Z.eqb_spec (Z.of_nat b) 0); [lia|].
  rewrite rem_once by lia.
  destruct (Z.ltb_spec (Z.of_nat a) (Z.of_nat b)),
           (Nat.ltb_spec a b); try lia; f_equal; lia.
Qed.

(** A natural for a non-negative [int]. *)
Lemma as_nat (z : Z) : 0 <= z -> exists k : nat, z = Z.of_nat k.
Proof. intros H. exists (Z.to_nat z). lia. Qed.

(** ** Windows of a ring *)

Section Ring.

Context {A : Type}.
Implicit Types (B p : list A) (i l k : nat).

Import Ring.

Lemma window_flat B i l :
  (i + l <= List.length B)%nat -> window B i l = firstn l (skipn i B).
Proof.
  intros H. unfold window. rewrite skipn_app.
  rewrite firstn_app. rewrite length_skipn.
  replace (l - (List.length B - i))%nat with 0%nat by lia.
  rewrite firstn_O, app_nil_r. reflexivity.
Qed.

Lemma window_wrapped B i l :
  (i <= List.length B <= i + l)%nat ->
  window B i l = skipn i B ++ firstn (i + l - List.length B) B.
Proof.
  intros H. unfold window. rewrite skipn_app.
  replace (i - List.length B)%nat with 0%nat by lia.
  rewrite skipn_O, firstn_app, length_skipn.
  rewrite firstn_all2 by (rewrite length_skipn; lia).
  f_equal. f_equal. lia.
Qed.

Lemma length_window B i l :
  (i <= List.length B)%nat -> (l <= List.length B)%nat ->
  List.length (window B i l) = l.
Proof.
  intros Hi Hl. unfold window.
  rewrite length_firstn, length_skipn, length_app. lia.
Qed.

Lemma firstn_window B i l k :
  (k <= l)%nat -> firstn k (window B i l) = window B i k.
Proof.
  intros H. unfold window. rewrite firstn_firstn.
  f_equal. lia.
Qed.

Lemma skipn_window_flat B i l k :
  (k <= l)%nat -> (i + k <= List.length B)%nat ->
  (l <= List.length B)%nat ->
  skipn k (window B i l) = window B (i + k) (l - k).
Proof.
  intros Hk Hi Hl. unfold window.
  rewrite skipn_firstn_comm, skipn_skipn. f_equal. f_equal. lia.
Qed.

Lemma skipn_window_wrapped B i l k :
  (k <= l)%nat -> (i <= List.length B <= i + k)%nat ->
  (l <= List.length B)%nat ->
  skipn k (window B i l) = window B (i + k - List.length B) (l - k).
Proof.
  intros Hk Hi Hl. unfold window.
  rewrite skipn_firstn_comm, skipn_skipn.
  rewrite !skipn_app.
  rewrite (skipn_all2 (n := (k + i)%nat)) by lia.
  replace (i + k - List.length B - List.length B)%nat with 0%nat by lia.
  rewrite skipn_O. cbn [app].
  rewrite firstn_app, length_skipn.
  replace (l - k - (List.length B - (i + k - List.length B)))%nat
    with 0%nat by lia.
  rewrite firstn_O, app_nil_r. f_equal. f_equal. lia.
Qed.

Lemma length_overwrite B s p :
  (s + List.length p <= List.length B)%nat ->
  List.length (overwrite B s p) = List.length B.
Proof.
  intros H. unfold overwrite.
  rewrite !length_app, length_firstn, length_skipn. lia.
Qed.

Lemma firstn_overwrite B s p k :
  (k <= s)%nat -> (s <= List.length B)%nat ->
  firstn k (overwrite B s p) = firstn k B.
Proof.
  intros Hk Hs. unfold overwrite. rewrite firstn_app, length_firstn.
  replace (k - Nat.min s (List.length B))%nat with 0%nat by lia.
  rewrite firstn_O, app_nil_r, firstn_firstn. f_equal. lia.
Qed.

Lemma firstn_overwrite_end B s p :
  (s <= List.length B)%nat ->
  firstn (s + List.length p) (overwrite B s p) = firstn s B ++ p.
Proof.
  intros Hs. unfold overwrite. rewrite app_assoc.
  rewrite firstn_app, length_app, length_firstn.
  replace (s + List.length p - (Nat.min s (List.length B) + List.length p))%nat
    with 0%nat by lia.
  rewrite firstn_O, app_nil_r.
  apply firstn_all2. rewrite length_app, length_firstn. lia.
Qed.

Lemma skipn_overwrite B s p k :
  (s + List.length p <= k)%nat -> (s <= List.length B)%nat ->
  skipn k (overwrite B s p) = skipn k B.
Proof.
  intros Hk Hs. unfold overwrite. rewrite app_assoc.
  rewrite skipn_app, length_app, length_firstn.
  rewrite skipn_all2 by (rewrite length_app, length_firstn; lia).
  rewrite skipn_skipn. cbn [app]. f_equal. lia.
Qed.

Lemma skipn_overwrite_in B s p k :
  (k <= s)%nat -> (s <= List.length B)%nat ->
  skipn k (overwrite B s p)
  = firstn (s - k) (skipn k B) ++ p ++ skipn (s + List.length p) B.
Proof.
  intros Hk Hs. unfold overwrite. rewrite skipn_app, length_firstn.
  replace (k - Nat.min s (List.length B))%nat with 0%nat by lia.
  rewrite skipn_O. f_equal. apply skipn_firstn_comm.
Qed.

(** Appending [p] behind a window that ends before the end of [B]. *)
Lemma window_write_flat B i l p :
  (i + l + List.length p <= List.length B)%nat ->
  window (overwrite B (i + l) p) i (l + List.length p) = window B i l ++ p.
Proof.
  intros H.
  rewrite !window_flat by (rewrite ?length_overwrite; lia).
  rewrite skipn_overwrite_in by lia.
  replace (i + l - i)%nat with l by lia.
  rewrite app_assoc, firstn_app, length_app, length_firstn, length_skipn.
  replace (l + List.length p - (Nat.min l (List.length B - i) + List.length p))%nat
    with 0%nat by lia.
  rewrite firstn_O, app_nil_r.
  apply firstn_all2. rewrite length_app, length_firstn, length_skipn. lia.
Qed.

(** Appending [p] behind a window that has wrapped around. *)
Lemma window_write_gap B i l p :
  (i <= List.length B <= i + l)%nat ->
  (i + l - List.length B + List.length p <= i)%nat ->
  window (overwrite B (i + l - List.length B) p) i (l + List.length p)
  = window B i l ++ p.
Proof.
  intros H Hp.
  rewrite !window_wrapped by (rewrite ?length_overwrite; lia).
  rewrite length_overwrite by lia.
  rewrite skipn_overwrite by lia.
  replace (i + (l + List.length p) - List.length B)%nat
    with (i + l - List.length B + List.length p)%nat by lia.
  rewrite firstn_overwrite_end by lia.
  rewrite <- app_assoc. reflexivity.
Qed.

(** Appending [p1 ++ p2]: [p1] fills [B] to its end, [p2] goes to the
    front. *)
Lemma window_write_split B i l p1 p2 :
  (i + l + List.length p1 = List.length B)%nat ->
  (List.length p2 <= i)%nat ->
  window (overwrite (overwrite B (i + l) p1) 0 p2) i
         (l + (List.length p1 + List.length p2))
  = window B i l ++ p1 ++ p2.
Proof.
  intros H1 H2.
  assert (L1 : List.length (overwrite B (i + l) p1) = List.length B)
    by (apply length_overwrite; lia).
  rewrite window_wrapped by (rewrite length_overwrite; lia).
  rewrite length_overwrite by lia.
  rewrite skipn_overwrite by lia.
  rewrite skipn_overwrite_in by lia.
  rewrite (skipn_all2 (n := (i + l + List.length p1)%nat)) by lia.
  replace (i + (l + (List.length p1 + List.length p2))
           - List.length (overwrite B (i + l) p1))%nat
    with (0 + List.length p2)%nat by lia.
  rewrite firstn_overwrite_end by lia.
  rewrite window_flat by lia.
  replace (i + l - i)%nat with l by lia.
  cbn [firstn app]. rewrite app_nil_r, <- !app_assoc. reflexivity.
Qed.

End Ring.

(** ** The circular buffer *)

Module CircularBufferFacts.

Import CircularBuffer Ring.

(** The state of a well-formed buffer in naturals. *)
Lemma wf_nat (c : t) :
  wf c ->
  exists i l : nat,
    index c = Z.of_nat i /\ len c = Z.of_nat l /\
    (l <= List.length (buf c))%nat /\
    (i < List.length (buf c) \/ i = 0)%nat /\
    2 * Z.of_nat (List.length (buf c)) <= 9223372036854775807.
Proof.
  unfold wf, Go.len, max_int. intros (Hc & Hl & Hi0 & Hi & _).
  destruct (as_nat (index c)) as [i Ei]; [lia|].
  destruct (as_nat (len c)) as [l El]; [lia|].
  exists i, l. repeat split; try assumption; lia.
Qed.

(** Wrapping arithmetic on naturals far from the bounds of [int]. *)
Lemma add_nat (a b : nat) :
  Z.of_nat (a + b) <= 9223372036854775807 ->
  add (Z.of_nat a) (Z.of_nat b) = Z.of_nat (a + b).
Proof. intros H. unfold add. rewrite wrap_small; unfold min_int, max_int; lia. Qed.

Lemma sub_nat (a b : nat) :
  Z.of_nat a <= 9223372036854775807 -> (b <= a)%nat ->
  sub (Z.of_nat a) (Z.of_nat b) = Z.of_nat (a - b).
Proof. intros H Hb. unfold sub. rewrite wrap_small; unfold min_int, max_int; lia. Qed.

Lemma length_contents_wf (c : t) :
  wf c -> List.length (contents c) = Z.to_nat (len c).
Proof.
  intros Hwf. destruct (wf_nat c Hwf) as (i & l & Ei & El & Hl & Hi & _).
  unfold contents. rewrite Ei, El, !Nat2Z.id.
  apply length_window; lia.
Qed.

(** [peek] copies the leading bytes into [p] and changes nothing. *)
Lemma peek_ok (c : t) (p : list byte) :
  wf c -> (len c =? 0) && closed c = false ->
  peek c p =
  Some (firstn (Nat.min (List.length p) (Z.to_nat (len c))) (contents c)
          ++ skipn (Nat.min (List.length p) (Z.to_nat (len c))) p,
        Z.min (Go.len p) (len c), None).
Proof.
  intros Hwf Hne. destruct (wf_nat c Hwf) as (i & l & Ei & El & Hl & Hi & Hc).
  unfold peek, contents. rewrite Hne, Ei, El. unfold Go.len.
  rewrite !Nat2Z.id, <- Nat2Z.inj_min.
  remember (Nat.min (List.length p) l) as n eqn:En.
  assert (E : (if Z.of_nat (List.length p) >? Z.of_nat l then Z.of_nat l
               else Z.of_nat (List.length p)) = Z.of_nat n).
  { destruct (Z.gtb_spec (Z.of_nat (List.length p)) (Z.of_nat l)); lia. }
  rewrite E. clear E.
  rewrite sub_nat by lia.
  rewrite firstn_window by lia.
  destruct (Z.ltb_spec (Z.of_nat n) (Z.of_nat (List.length (buf c) - i)))
    as [Hlt | Hge].
  - rewrite add_nat by lia. rewrite slice_nat by lia. cbn [bind].
    unfold copy, Go.len. change 0 with (Z.of_nat 0).
    rewrite copy_into_nat by lia. cbn [bind].
    rewrite window_flat by lia.
    rewrite length_firstn, length_skipn.
    replace (Nat.min (List.length p - 0)
               (Nat.min (i + n - i) (List.length (buf c) - i))) with n by lia.
    replace (i + n - i)%nat with n by lia.
    rewrite firstn_firstn, Nat.min_id. reflexivity.
  - unfold slice_from, slice_to, copy, Go.len. rewrite slice_nat by lia.
    cbn [bind]. change 0 with (Z.of_nat 0).
    rewrite copy_into_nat by lia. cbn [bind].
    rewrite length_firstn, length_skipn.
    remember (List.length (buf c) - i)%nat as lbe eqn:Elbe.
    replace (Nat.min (List.length p - 0) (Nat.min lbe lbe)) with lbe by lia.
    rewrite sub_nat by lia. rewrite slice_nat by lia. cbn [bind].
    rewrite firstn_firstn, Nat.min_id.
    rewrite firstn_all2 with (n := lbe) by (rewrite length_skipn; lia).
    cbn [firstn app Nat.add skipn].
    rewrite copy_into_nat
      by (rewrite length_app, !length_skipn; lia).
    cbn [bind].
    rewrite length_app, !length_skipn, length_firstn, Nat.sub_0_r.
    replace (Nat.min (List.length (buf c) - i + (List.length p - lbe) - lbe)
               (Nat.min (n - lbe) (List.length (buf c)))) with (n - lbe)%nat
      by lia.
    rewrite add_nat by lia.
    replace (lbe + (n - lbe))%nat with n by lia.
    rewrite window_wrapped by lia.
    rewrite firstn_app, length_skipn, <- Elbe, Nat.sub_diag, firstn_O, app_nil_r.
    rewrite firstn_all2 with (n := lbe) by (rewrite length_skipn; lia).
    rewrite firstn_firstn, Nat.min_id.
    rewrite skipn_app, length_skipn, <- Elbe.
    rewrite skipn_all2 with (n := n) by (rewrite length_skipn; lia).
    rewrite skipn_skipn. cbn [app].
    replace (n - lbe + lbe)%nat with n by lia.
    replace (i + n - List.length (buf c))%nat with (n - lbe)%nat by lia.
    rewrite <- app_assoc. reflexivity.
Qed.

(** [addLen] sets the length and, on an open buffer that is not
    empty, leaves a pulse pending. *)
Lemma addLen_ok (c : t) (n : Z) :
  Chan.closed (C c) = closed c ->
  exists ch,
    addLen c n = Some (set_C (set_len c (add (len c) n)) ch) /\
    Chan.closed ch = closed c /\
    ch = (if negb (add (len c) n =? 0) && negb (closed c)
          then {| Chan.pending := true; Chan.closed := false |}
          else C c).
Proof.
  intros Hs. unfold addLen. cbn [len closed set_len C].
  destruct (negb (add (len c) n =? 0) && negb (closed c)) eqn:E.
  - apply andb_true_iff in E as [_ E]. apply negb_true_iff in E.
    unfold Chan.try_send. rewrite Hs, E. cbn [bind].
    eexists. repeat split.
  - eexists. repeat split. exact Hs.
Qed.

(** [consume] on a count that is not negative. *)
Lemma consume_ok (c : t) (n : Z) :
  wf c -> 0 < Go.len (buf c) -> 0 <= n ->
  exists c',
    consume c n = Some (c', Z.min n (len c)) /\
    wf c' /\
    buf c' = buf c /\ closed c' = closed c /\
    len c' = len c - Z.min n (len c) /\
    index c' = Z.rem (index c + Z.min n (len c)) (Go.len (buf c)) /\
    contents c' = skipn (Z.to_nat n) (contents c).
Proof.
  intros Hwf Hcap Hn.
  destruct (wf_nat c Hwf) as (i & l & Ei & El & Hl & Hi & Hc).
  destruct Hwf as (_ & _ & _ & _ & Hs).
  destruct (as_nat n Hn) as [k Ek]. subst n.
  unfold consume, Go.len in *. rewrite Ei, El.
  assert (E : (if Z.of_nat k >? Z.of_nat l then Z.of_nat l else Z.of_nat k)
              = Z.of_nat (Nat.min k l)).
  { destruct (Z.gtb_spec (Z.of_nat k) (Z.of_nat l)); lia. }
  rewrite E. clear E. rewrite <- Nat2Z.inj_min.
  remember (Nat.min k l) as m eqn:Em.
  rewrite add_nat by lia. rewrite rem_nat by lia. cbn [bind].
  destruct (addLen_ok (set_index c (Z.of_nat (if (i + m <? List.length (buf c))%nat
                                              then i + m
                                              else i + m - List.length (buf c))%nat))
              (wrap (- Z.of_nat m)) Hs) as (ch & Ea & Hch & _).
  rewrite Ea. cbn [bind]. cbn [len set_index] in Ea |- *.
  rewrite ?El.
  assert (Elen : add (Z.of_nat l) (wrap (- Z.of_nat m)) = Z.of_nat (l - m)).
  { unfold add.
    rewrite (wrap_small (- Z.of_nat m)) by (unfold min_int, max_int; lia).
    rewrite wrap_small by (unfold min_int, max_int; lia). lia. }
  rewrite Elen.
  eexists. split; [reflexivity|].
  cbn [buf len index closed C set_C set_len set_index].
  rewrite <- Nat2Z.inj_add, rem_once by lia.
  split; [|split; [reflexivity|split; [reflexivity|split; [lia|split]]]].
  - unfold wf, Go.len, max_int.
    cbn [buf len index closed C set_C set_len set_index].
    split; [lia|]. split; [lia|]. split; [lia|]. split; [|exact Hch].
    destruct (Nat.ltb_spec (i + m) (List.length (buf c))); lia.
  - destruct (Nat.ltb_spec (i + m) (List.length (buf c))),
             (Z.ltb_spec (Z.of_nat (i + m)) (Z.of_nat (List.length (buf c))));
      lia.
  - unfold contents.
    cbn [buf len index closed C set_C set_len set_index].
    rewrite Ei, El, !Nat2Z.id.
    replace (skipn k (window (buf c) i l)) with (skipn m (window (buf c) i l)).
    2:{ destruct (Nat.le_ge_cases k l).
        - f_equal. lia.
        - replace m with l by lia.
          rewrite !skipn_all2; [reflexivity | |];
            rewrite length_window; lia. }
    destruct (Nat.ltb_spec (i + m) (List.length (buf c))).
    + rewrite skipn_window_flat by lia. reflexivity.
    + rewrite skipn_window_wrapped by lia. reflexivity.
Qed.

(** The shared tail of [Write], on an open buffer with room for [p]:
    all of [p] goes behind the bytes already held. *)
Lemma write_at_tail_ok (c : t) (p : list byte) :
  wf c -> 0 < Go.len (buf c) -> closed c = false ->
  Go.len p <= Go.len (buf c) - len c ->
  exists c',
    write_at_tail c p = Some (c', Go.len p, None) /\
    wf c' /\
    Go.len (buf c') = Go.len (buf c) /\ index c' = index c /\
    closed c' = false /\
    len c' = len c + Go.len p /\
    contents c' = contents c ++ p.
Proof.
  intros Hwf Hcap Hopen Hroom.
  destruct (wf_nat c Hwf) as (i & l & Ei & El & Hl & Hi & Hc).
  destruct Hwf as (_ & _ & _ & _ & Hs).
  unfold write_at_tail, Go.len in *. rewrite Ei, El.
  rewrite add_nat by lia. rewrite rem_nat by lia. cbn [bind].
  remember (if (i + l <? List.length (buf c))%nat then (i + l)%nat
            else (i + l - List.length (buf c))%nat) as s eqn:Es.
  assert (Hsb : (s < List.length (buf c))%nat).
  { subst s. destruct (Nat.ltb_spec (i + l) (List.length (buf c))); lia. }
  rewrite sub_nat by lia.
  assert (Hlen : add (Z.of_nat l) (Z.of_nat (List.length p))
                 = Z.of_nat (l + List.length p)) by (apply add_nat; lia).
  destruct (Z.ltb_spec (Z.of_nat (List.length p))
              (Z.of_nat (List.length (buf c) - s))) as [Hfit | Hwrap].
  - rewrite copy_into_nat by lia. cbn [bind].
    replace (Nat.min (List.length (buf c) - s) (List.length p))
      with (List.length p) by lia.
    rewrite firstn_all.
    change (firstn s (buf c) ++ p ++ skipn (s + List.length p) (buf c))
      with (overwrite (buf c) s p).
    destruct (addLen_ok (set_buf c (overwrite (buf c) s p))
                (Z.of_nat (List.length p)) Hs) as (ch & Ea & Hch & _).
    rewrite Ea. cbn [bind]. cbn [len set_buf closed] in Hch |- *.
    rewrite El, Hlen.
    eexists. split; [reflexivity|].
    cbn [buf len index closed C set_C set_len set_buf].
    rewrite length_overwrite by lia.
    split; [|split; [reflexivity|split; [assumption|split;
      [assumption|split; [lia|]]]]].
    + unfold wf, Go.len, max_int.
      cbn [buf len index closed C set_C set_len set_buf].
      rewrite length_overwrite by lia.
      split; [lia|]. split; [lia|]. split; [lia|]. split; [lia|exact Hch].
    + unfold contents.
      cbn [buf len index closed C set_C set_len set_buf].
      rewrite Ei, El, !Nat2Z.id. subst s.
      destruct (Nat.ltb_spec (i + l) (List.length (buf c))).
      * apply window_write_flat. lia.
      * apply window_write_gap; lia.
  - assert (Hflat : (i + l < List.length (buf c))%nat).
    { subst s. destruct (Nat.ltb_spec (i + l) (List.length (buf c))); lia. }
    assert (Ess : s = (i + l)%nat).
    { subst s. destruct (Nat.ltb_spec (i + l) (List.length (buf c))); lia. }
    clear Es. subst s.
    remember (List.length (buf c) - (i + l))%nat as lbe eqn:Elbe.
    unfold slice_to, slice_from, Go.len. change 0 with (Z.of_nat 0).
    rewrite slice_nat by lia. cbn [bind].
    rewrite Nat.sub_0_r, skipn_O.
    rewrite copy_into_nat by lia. cbn [bind].
    rewrite length_firstn, <- Elbe.
    replace (Nat.min lbe (Nat.min lbe (List.length p))) with lbe by lia.
    rewrite firstn_firstn, Nat.min_id.
    rewrite slice_nat by lia. cbn [bind].
    rewrite firstn_all2 with (l := skipn lbe p)
      by (rewrite length_skipn; lia).
    assert (L1 : List.length (firstn lbe p) = lbe)
      by (rewrite length_firstn; lia).
    replace (firstn (i + l) (buf c) ++ firstn lbe p
               ++ skipn (i + l + lbe) (buf c))
      with (overwrite (buf c) (i + l) (firstn lbe p))
      by (unfold overwrite; rewrite L1; reflexivity).
    rewrite copy_into_nat by (rewrite length_overwrite; lia).
    cbn [bind].
    rewrite length_skipn, Nat.sub_0_r.
    replace (Nat.min (i + l) (List.length p - lbe))
      with (List.length p - lbe)%nat by lia.
    rewrite firstn_all2 with (l := skipn lbe p)
      by (rewrite length_skipn; lia).
    assert (L2 : List.length (skipn lbe p) = (List.length p - lbe)%nat)
      by apply length_skipn.
    replace (firstn 0 (overwrite (buf c) (i + l) (firstn lbe p))
               ++ skipn lbe p
               ++ skipn (0 + (List.length p - lbe))
                    (overwrite (buf c) (i + l) (firstn lbe p)))
      with (overwrite (overwrite (buf c) (i + l) (firstn lbe p)) 0
              (skipn lbe p))
      by (unfold overwrite at 1; rewrite L2; reflexivity).
    match goal with
    | |- context [addLen (set_buf c ?b) _] =>
        destruct (addLen_ok (set_buf c b) (Z.of_nat (List.length p)) Hs)
          as (ch & Ea & Hch & _)
    end.
    rewrite Ea. cbn [bind]. cbn [len set_buf closed] in Hch |- *.
    rewrite El, Hlen.
    rewrite add_nat by lia.
    replace (lbe + (List.length p - lbe))%nat with (List.length p) by lia.
    eexists. split; [reflexivity|].
    cbn [buf len index closed C set_C set_len set_buf].
    rewrite !length_overwrite by (rewrite ?length_overwrite; lia).
    split; [|split; [reflexivity|split; [assumption|split;
      [assumption|split; [lia|]]]]].
    + unfold wf, Go.len, max_int.
      cbn [buf len index closed C set_C set_len set_buf].
      rewrite !length_overwrite by (rewrite ?length_overwrite; lia).
      split; [lia|]. split; [lia|]. split; [lia|]. split; [lia|exact Hch].
    + unfold contents.
      cbn [buf len index closed C set_C set_len set_buf].
      rewrite Ei, El, !Nat2Z.id.
      replace (l + List.length p)%nat
        with (l + (List.length (firstn lbe p)
                   + List.length (skipn lbe p)))%nat by lia.
      rewrite window_write_split by lia.
      rewrite firstn_skipn. reflexivity.
Qed.

Lemma NewCircularBuffer_ok (capacity : Z) :
  0 <= capacity -> 2 * capacity <= max_int ->
  exists c,
    NewCircularBuffer capacity = Some c /\
    wf c /\ Capacity c = capacity /\ len c = 0 /\ index c = 0 /\
    closed c = false /\ contents c = [].
Proof.
  intros H0 H1. unfold NewCircularBuffer, make_bytes.
  destruct (Z.ltb_spec capacity 0); [lia|]. cbn [bind].
  eexists. split; [reflexivity|].
  unfold wf, Capacity, contents, window, Go.len.
  cbn [buf len index closed C]. rewrite repeat_length.
  repeat split; try lia; try reflexivity.
Qed.

(** [Read] on a buffer that is not both closed and empty. *)
Lemma Read_ok (c : t) (p : list byte) :
  wf c -> 0 < Go.len (buf c) -> (len c =? 0) && closed c = false ->
  exists c',
    Read c p =
      Some (c',
            firstn (Nat.min (List.length p) (Z.to_nat (len c))) (contents c)
              ++ skipn (Nat.min (List.length p) (Z.to_nat (len c))) p,
            Z.min (Go.len p) (len c), None) /\
    wf c' /\ buf c' = buf c /\ closed c' = closed c /\
    len c' = len c - Z.min (Go.len p) (len c) /\
    contents c'
    = skipn (Nat.min (List.length p) (Z.to_nat (len c))) (contents c).
Proof.
  intros Hwf Hcap Hne. unfold Read. rewrite peek_ok by assumption.
  cbn [bind].
  pose proof Hwf as (_ & Hl & _).
  destruct (consume_ok c (Z.min (Go.len p) (len c)) Hwf Hcap)
    as (c' & Ec & Hwf' & Hb & Hcl & Hlen & _ & Hcont).
  { pose proof (len_nonneg p). lia. }
  rewrite Ec. cbn [bind].
  replace (Z.min (Z.min (Go.len p) (len c)) (len c))
    with (Z.min (Go.len p) (len c)) in * by lia.
  exists c'. split; [reflexivity|].
  split; [assumption|]. split; [assumption|]. split; [assumption|].
  split; [assumption|].
  rewrite Hcont. f_equal. unfold Go.len. lia.
Qed.

(** [Read] and [Peek] on a closed and empty buffer. *)
Lemma peek_eof (c : t) (p : list byte) :
  (len c =? 0) && closed c = true -> peek c p = Some (p, 0, Some EOF).
Proof. intros H. unfold peek. now rewrite H. Qed.

Lemma Read_eof (c : t) (p : list byte) :
  (len c =? 0) && closed c = true -> Read c p = Some (c, p, 0, Some EOF).
Proof. intros H. unfold Read. rewrite peek_eof by assumption. reflexivity. Qed.

(** The first version's [Write] on an open buffer with room. *)
Lemma FailFast_Write_ok (c : t) (p : list byte) :
  wf c -> 0 < Go.len (buf c) -> closed c = false ->
  Go.len p <= Go.len (buf c) - len c ->
  exists c',
    FailFast.Write c p = Some (c', Go.len p, None) /\
    wf c' /\
    Go.len (buf c') = Go.len (buf c) /\ index c' = index c /\
    closed c' = false /\
    len c' = len c + Go.len p /\
    contents c' = contents c ++ p.
Proof.
  intros Hwf Hcap Hopen Hroom. unfold FailFast.Write. rewrite Hopen.
  pose proof Hwf as (Hc & Hl & _). unfold max_int in Hc.
  pose proof (len_nonneg p).
  unfold sub. rewrite wrap_small by (unfold min_int, max_int; lia).
  destruct (Z.gtb_spec (Go.len p) (Go.len (buf c) - len c)); [lia|].
  now apply write_at_tail_ok.
Qed.

(** [Consume] on any count whose negation and whose removal from the
    length stay within [int]. *)
Lemma consume_arith (c : t) (n : Z) :
  wf c -> 0 < Go.len (buf c) -> len c - max_int <= n ->
  exists c',
    consume c n = Some (c', Z.min n (len c)) /\
    buf c' = buf c /\ closed c' = closed c /\
    len c' = len c - Z.min n (len c) /\
    index c' = Z.rem (index c + Z.min n (len c)) (Go.len (buf c)).
Proof.
  intros (Hc & Hl & Hi0 & Hi & Hs) Hcap Hn. unfold max_int in *.
  unfold consume.
  assert (E : (if n >? len c then len c else n) = Z.min n (len c)).
  { destruct (Z.gtb_spec n (len c)); lia. }
  rewrite E. clear E.
  remember (Z.min n (len c)) as m eqn:Em.
  unfold add at 1. rewrite wrap_small by (unfold min_int, max_int; lia).
  unfold rem. destruct (Z.eqb_spec (Go.len (buf c)) 0); [lia|].
  cbn [bind].
  destruct (addLen_ok (set_index c (Z.rem (index c + m) (Go.len (buf c))))
              (wrap (- m)) Hs) as (ch & Ea & _).
  rewrite Ea. cbn [bind]. cbn [len set_index].
  eexists. split; [reflexivity|].
  cbn [buf len index closed C set_C set_len set_index].
  repeat split.
  unfold add. rewrite (wrap_small (- m)) by (unfold min_int, max_int; lia).
  rewrite wrap_small by (unfold min_int, max_int; lia). lia.
Qed.

(** A run of calls that fits: every call returns, every write is
    accepted, and the bytes held at the start followed by the bytes
    written are the bytes read followed by the bytes still held. *)
Lemma run_ok (ops : list op) :
  forall c,
    wf c -> 0 < Go.len (buf c) -> closed c = false ->
    fits (List.length (buf c)) (Z.to_nat (len c)) ops ->
    exists c' evs,
      run c ops = Some (c', evs) /\
      wf c' /\ writes_accepted ops evs /\
      contents c ++ written ops = read_back evs ++ contents c'.
Proof.
  induction ops as [|o ops IH]; intros c Hwf Hcap Hopen Hfit.
  - exists c, []. cbn [run written read_back writes_accepted app].
    rewrite app_nil_r.
    split; [reflexivity|]. split; [assumption|]. split; [exact I|reflexivity].
  - destruct o as [p | size]; cbn [fits] in Hfit.
    + destruct Hfit as [Hroom Hfit].
      pose proof Hwf as (_ & Hl & _).
      destruct (FailFast_Write_ok c p Hwf Hcap Hopen)
        as (c1 & Ew & Hwf1 & Hb1 & _ & Ho1 & Hl1 & Hc1).
      { unfold Go.len. lia. }
      destruct (IH c1) as (c' & evs & Er & Hwf' & Hacc & Hinv);
        try assumption.
      { unfold Go.len in *. lia. }
      { unfold Go.len in *.
        replace (List.length (buf c1)) with (List.length (buf c)) by lia.
        replace (Z.to_nat (len c1))
          with (Z.to_nat (len c) + List.length p)%nat by lia.
        exact Hfit. }
      exists c', (Wrote (Go.len p) None :: evs).
      cbn [run]. rewrite Ew. cbn [bind]. rewrite Er. cbn [bind].
      split; [reflexivity|]. split; [assumption|].
      split; [cbn; auto|].
      cbn [written read_back]. rewrite <- Hinv, Hc1, <- app_assoc.
      reflexivity.
    + pose proof Hwf as (_ & Hl & _).
      assert (Hne : (len c =? 0) && closed c = false)
        by (rewrite Hopen; apply andb_false_r).
      destruct (Read_ok c (repeat x00 size) Hwf Hcap Hne)
        as (c1 & Er1 & Hwf1 & Hb1 & Hcl1 & Hl1 & Hc1).
      rewrite repeat_length in *.
      unfold Go.len in Er1, Hl1. rewrite repeat_length in Er1, Hl1.
      destruct (IH c1) as (c' & evs & Er & Hwf' & Hacc & Hinv);
        try assumption.
      { rewrite Hb1. assumption. }
      { congruence. }
      { rewrite Hb1.
        replace (Z.to_nat (len c1))
          with (Z.to_nat (len c) - Nat.min size (Z.to_nat (len c)))%nat
          by lia.
        exact Hfit. }
      eexists c', _.
      cbn [run]. rewrite Er1. cbn [bind]. rewrite Er. cbn [bind].
      split; [reflexivity|]. split; [assumption|].
      split; [exact Hacc|].
      cbn [written read_back].
      replace (Z.to_nat (Z.min (Z.of_nat size) (len c)))
        with (Nat.min size (Z.to_nat (len c))) by lia.
      rewrite firstn_app, length_firstn, length_contents_wf by assumption.
      replace (Nat.min size (Z.to_nat (len c))
               - Nat.min (Nat.min size (Z.to_nat (len c))) (Z.to_nat (len c)))%nat
        with 0%nat by lia.
      rewrite firstn_O, app_nil_r, firstn_firstn, Nat.min_id.
      rewrite <- app_assoc, <- Hinv, Hc1, app_assoc, firstn_skipn.
      reflexivity.
Qed.

Lemma skipn_repeat_sub {A} (a : A) (n k : nat) :
  skipn k (repeat a n) = repeat a (n - k).
Proof.
  revert k. induction n as [|n IH]; intros [|k]; cbn; auto.
Qed.

(** [resize] to at least [minSize] on an open buffer: the bytes held
    move to the front of fresh storage of the size the growth rule
    gives. *)
Lemma resize_ok (c : t) (minSize : Z) :
  wf c -> closed c = false ->
  len c <= minSize -> 8 * Go.len (buf c) <= max_int ->
  2 * minSize <= max_int ->
  exists c',
    AutoGrow.resize c minSize
    = Some (c', Z.max (AutoGrow.growth_target (Go.len (buf c))) minSize, None) /\
    wf c' /\
    Go.len (buf c') = Z.max (AutoGrow.growth_target (Go.len (buf c))) minSize /\
    index c' = 0 /\ len c' = len c /\ closed c' = false /\
    contents c' = contents c.
Proof.
  intros Hwf Hopen Hmin Hb8 Hm2.
  pose proof Hwf as (Hc & Hl & Hi0 & Hi & Hs).
  pose proof (len_nonneg (buf c)) as Hcap0.
  unfold max_int in *.
  unfold AutoGrow.resize, AutoGrow.growth_target.
  remember (Go.len (buf c)) as cap eqn:Ecap.
  assert (Et : quo (mul cap (if cap >? 8192 then 5 else 8)) 4
               = Some (if cap <=? 8192 then 2 * cap else cap * 5 / 4)).
  { unfold quo, mul. cbn [Z.eqb]. f_equal.
    destruct (Z.gtb_spec cap 8192), (Z.leb_spec cap 8192); try lia.
    - rewrite (wrap_small (cap * 5)) by (unfold min_int, max_int; lia).
      rewrite Z.quot_div_nonneg by lia.
      apply wrap_small. unfold min_int, max_int.
      assert (0 <= cap * 5 / 4 <= cap * 5).
      { split; [apply Z.div_pos; lia|].
        apply Z.div_le_upper_bound; lia. }
      lia.
    - rewrite (wrap_small (cap * 8)) by (unfold min_int, max_int; lia).
      rewrite Z.quot_div_nonneg by lia.
      replace (cap * 8) with (2 * cap * 4) by lia.
      rewrite Z.div_mul by lia.
      apply wrap_small. unfold min_int, max_int. lia. }
  rewrite Et. cbn [bind]. clear Et.
  remember (if cap <=? 8192 then 2 * cap else cap * 5 / 4) as target eqn:Etg.
  assert (Htg : cap <= target <= 2 * cap).
  { subst target. destruct (Z.leb_spec cap 8192); [lia|].
    split.
    - apply Z.div_le_lower_bound; lia.
    - apply Z.div_le_upper_bound; lia. }
  assert (En : (if minSize >? target then minSize else target)
               = Z.max target minSize).
  { destruct (Z.gtb_spec minSize target); lia. }
  rewrite En. clear En.
  remember (Z.max target minSize) as newSize eqn:Ens.
  assert (Hns : len c <= newSize /\ cap <= newSize /\ 2 * newSize <= 9223372036854775807)
    by lia.
  unfold make_bytes. destruct (Z.ltb_spec newSize 0); [lia|]. cbn [bind].
  rewrite peek_ok
    by (try assumption; rewrite Hopen; apply andb_false_r).
  cbn [bind].
  rewrite repeat_length.
  replace (Nat.min (Z.to_nat newSize) (Z.to_nat (len c)))
    with (Z.to_nat (len c)) by lia.
  rewrite firstn_all2 by (rewrite length_contents_wf by assumption; lia).
  rewrite skipn_repeat_sub.
  assert (Lb : List.length (contents c ++ repeat x00 (Z.to_nat newSize - Z.to_nat (len c)))
               = Z.to_nat newSize).
  { rewrite length_app, repeat_length, length_contents_wf by assumption. lia. }
  cbn [buf set_buf set_index]. unfold Go.len at 1. rewrite Lb.
  rewrite Z2Nat.id by lia.
  eexists. split; [reflexivity|].
  unfold wf, Go.len.
  cbn [buf len index closed C set_buf set_index].
  rewrite Lb, Z2Nat.id by lia.
  split; [|split; [lia|split; [reflexivity|split; [reflexivity|split;
    [assumption|]]]]].
  - split; [unfold max_int; lia|]. split; [lia|]. split; [lia|].
    split; [lia|assumption].
  - unfold contents at 1.
    cbn [buf len index closed C set_buf set_index].
    change (Z.to_nat 0) with 0%nat.
    rewrite window_flat by lia. rewrite skipn_O.
    rewrite firstn_app, length_contents_wf, Nat.sub_diag by assumption.
    rewrite firstn_O, app_nil_r.
    apply firstn_all2. rewrite length_contents_wf by assumption. lia.
Qed.

End CircularBufferFacts.

(** ** The claims on the circular buffer *)

Import CircularBuffer.

(** C4.  Round trip of the first version of the buffer: for a capacity
    [C > 0] and any interleaving of writes and reads in which the
    occupancy never exceeds [C], every call returns, every write is
    accepted whole, and the bytes read back followed by the bytes still
    buffered are the bytes written, in order; once the buffer is
    drained the bytes read back are exactly the bytes written. *)
Theorem round_trip (capacity : Z) (ops : list op) :
  0 < capacity -> 2 * capacity <= max_int ->
  fits (Z.to_nat capacity) 0 ops ->
  exists c c' evs,
    NewCircularBuffer capacity = Some c /\
    run c ops = Some (c', evs) /\
    writes_accepted ops evs /\
    read_back evs ++ contents c' = written ops /\
    (Len c' = 0 -> read_back evs = written ops).
Proof.
  intros Hpos Hmax Hfit.
  destruct (CircularBufferFacts.NewCircularBuffer_ok capacity)
    as (c & En & Hwf & Hcap & Hlen & _ & Hopen & Hnil); try lia.
  unfold Capacity in Hcap.
  destruct (CircularBufferFacts.run_ok ops c) as (c' & evs & Er & Hwf' & Hacc & Hinv);
    try assumption.
  { lia. }
  { unfold Go.len in Hcap. rewrite Hlen.
    replace (List.length (buf c)) with (Z.to_nat capacity) by lia.
    exact Hfit. }
  exists c, c', evs. rewrite Hnil in Hinv. cbn [app] in Hinv.
  split; [assumption|]. split; [assumption|]. split; [assumption|].
  split; [symmetry; assumption|].
  intros H0. unfold Len in H0.
  pose proof (CircularBufferFacts.length_contents_wf c' Hwf') as L.
  rewrite H0 in L. destruct (contents c'); [|discriminate].
  rewrite app_nil_r in Hinv. symmetry. assumption.
Qed.

Lemma round_trip_witness :
  0 < 4 /\ 2 * 4 <= max_int /\
  fits (Z.to_nat 4) 0
    [OpWrite [x61; x62; x63]; OpRead 2; OpWrite [x64; x65; x66]; OpRead 9] /\
  exists c c' evs,
    NewCircularBuffer 4 = Some c /\
    run c [OpWrite [x61; x62; x63]; OpRead 2; OpWrite [x64; x65; x66];
           OpRead 9] = Some (c', evs) /\
    writes_accepted
      [OpWrite [x61; x62; x63]; OpRead 2; OpWrite [x64; x65; x66]; OpRead 9]
      evs /\
    read_back evs ++ contents c' = [x61; x62; x63; x64; x65; x66] /\
    (Len c' = 0 -> read_back evs = [x61; x62; x63; x64; x65; x66]).
Proof.
  split; [lia|]. split; [unfold max_int; lia|].
  split; [cbn; lia|].
  apply (round_trip 4
           [OpWrite [x61; x62; x63]; OpRead 2; OpWrite [x64; x65; x66];
            OpRead 9]).
  - lia.
  - unfold max_int; lia.
  - cbn; lia.
Defined.

(** C8.  Consume saturation: on a buffer of positive capacity
    [Consume(n)] returns without fault; it returns [min(n, length)],
    reduces the length by that amount and advances the cursor by it
    (modulo the capacity); with [n > length] it returns the length and
    leaves the buffer empty; for [n >= 0] the bytes left are the bytes
    held before without their first [min(n, length)]. *)
Theorem Consume_saturates (c : t) (n : Z) :
  wf c -> 0 < Capacity c -> Len c - max_int <= n ->
  exists c',
    Consume c n = Some (c', Z.min n (Len c)) /\
    Len c' = Len c - Z.min n (Len c) /\
    index c' = Z.rem (index c + Z.min n (Len c)) (Capacity c) /\
    (n > Len c -> Len c' = 0) /\
    (0 <= n ->
     wf c' /\ contents c' = skipn (Z.to_nat (Z.min n (Len c))) (contents c)).
Proof.
  unfold Consume, Capacity, Len. intros Hwf Hcap Hn.
  destruct (CircularBufferFacts.consume_arith c n Hwf Hcap Hn)
    as (c' & Ec & _ & _ & Hl & Hi).
  exists c'. split; [assumption|]. split; [assumption|].
  split; [assumption|]. split; [lia|].
  intros H0.
  destruct (CircularBufferFacts.consume_ok c n Hwf Hcap H0)
    as (c2 & Ec2 & Hwf2 & _ & _ & _ & _ & Hc2).
  rewrite Ec in Ec2. injection Ec2 as <-.
  split; [assumption|]. rewrite Hc2.
  pose proof Hwf as (_ & Hlen & _).
  destruct (Z.le_ge_cases n (len c)).
  - f_equal. lia.
  - rewrite !skipn_all2; [reflexivity | |];
      rewrite CircularBufferFacts.length_contents_wf by assumption; lia.
Qed.

(** C10.  [Close] is single-shot: on a buffer whose channel is open
    it marks the buffer closed and closes the channel, and a second
    [Close] faults. *)
Theorem Close_single_shot (c : t) :
  Chan.closed (C c) = false ->
  exists c',
    Close c = Some (c', None) /\
    closed c' = true /\ Chan.closed (C c') = true /\
    buf c' = buf c /\ len c' = len c /\ index c' = index c /\
    Close c' = None.
Proof.
  intros H. unfold Close, Chan.close. cbn [C set_closed].
  rewrite H. cbn [bind]. eexists. split; [reflexivity|].
  cbn. repeat split.
Qed.

Lemma sample_wf : wf sample.
Proof.
  unfold wf, sample, Go.len, max_int. cbn.
  split; [lia|]. split; [lia|]. split; [lia|]. split; [lia|reflexivity].
Qed.

Lemma Consume_saturates_witness :
  wf sample /\ 0 < Capacity sample /\ Len sample - max_int <= 5 /\
  exists c',
    Consume sample 5 = Some (c', Z.min 5 (Len sample)) /\
    Len c' = Len sample - Z.min 5 (Len sample) /\
    index c' = Z.rem (index sample + Z.min 5 (Len sample)) (Capacity sample) /\
    (5 > Len sample -> Len c' = 0) /\
    (0 <= 5 ->
     wf c' /\
     contents c' = skipn (Z.to_nat (Z.min 5 (Len sample))) (contents sample)).
Proof.
  split; [exact sample_wf|]. split; [reflexivity|].
  split; [unfold max_int; cbn; lia|].
  apply (Consume_saturates sample 5).
  - exact sample_wf.
  - reflexivity.
  - unfold max_int; cbn; lia.
Defined.

Lemma Close_single_shot_witness :
  Chan.closed (C sample) = false /\
  exists c',
    Close sample = Some (c', None) /\
    closed c' = true /\ Chan.closed (C c') = true /\
    buf c' = buf sample /\ len c' = len sample /\ index c' = index sample /\
    Close c' = None.
Proof.
  split; [reflexivity|].
  apply (Close_single_shot sample). reflexivity.
Defined.

(** C6.  Close semantics of the first version, on a buffer of positive
    capacity: [Close] on an open buffer marks it closed and keeps its
    bytes; on a closed buffer every [Write] fails with end-of-stream
    and changes nothing; [Peek] and [Read] return end-of-stream exactly
    when the buffer is closed and empty, and no other error; a closed
    buffer that still holds bytes hands them to [Peek] and [Read], the
    [Read] leaving the rest in a buffer that is still closed. *)
Theorem Close_semantics (c : t) (p : list byte) :
  wf c -> 0 < Capacity c ->
  (closed c = false ->
   exists c1, Close c = Some (c1, None) /\ wf c1 /\ closed c1 = true /\
              Capacity c1 = Capacity c /\ contents c1 = contents c) /\
  (closed c = true -> FailFast.Write c p = Some (c, 0, Some EOF)) /\
  (exists p' n e c',
     Peek c p = Some (p', n, e) /\ Read c p = Some (c', p', n, e) /\
     (e = Some EOF <-> closed c = true /\ Len c = 0) /\
     (e = None \/ e = Some EOF) /\ closed c' = closed c) /\
  (closed c = true -> 0 < Len c ->
   exists c',
     Peek c p =
       Some (firstn (Nat.min (List.length p) (Z.to_nat (Len c))) (contents c)
               ++ skipn (Nat.min (List.length p) (Z.to_nat (Len c))) p,
             Z.min (Go.len p) (Len c), None) /\
     Read c p =
       Some (c',
             firstn (Nat.min (List.length p) (Z.to_nat (Len c))) (contents c)
               ++ skipn (Nat.min (List.length p) (Z.to_nat (Len c))) p,
             Z.min (Go.len p) (Len c), None) /\
     wf c' /\ closed c' = true /\
     contents c'
     = skipn (Nat.min (List.length p) (Z.to_nat (Len c))) (contents c)).
Proof.
  unfold Capacity, Len, Peek. intros Hwf Hcap.
  split; [|split; [|split]].
  - intros Hopen. unfold Close, Chan.close. cbn [C set_closed].
    destruct Hwf as (Hc & Hl & Hi0 & Hi & Hs).
    rewrite Hs, Hopen. cbn [bind]. eexists. split; [reflexivity|].
    unfold wf, contents.
    cbn [buf len index closed C set_C set_closed Chan.closed].
    destruct Hl. repeat split; try assumption; reflexivity.
  - intros Hcl. unfold FailFast.Write. now rewrite Hcl.
  - destruct ((len c =? 0) && closed c) eqn:E.
    + exists p, 0, (Some EOF), c.
      rewrite CircularBufferFacts.peek_eof, CircularBufferFacts.Read_eof
        by assumption.
      apply andb_true_iff in E as [E1 E2]. apply Z.eqb_eq in E1.
      repeat split; auto.
    + destruct (CircularBufferFacts.Read_ok c p Hwf Hcap E)
        as (c' & Er & _ & _ & Hcl & _).
      rewrite CircularBufferFacts.peek_ok by assumption.
      do 4 eexists. split; [reflexivity|]. split; [exact Er|].
      split; [|split; [left; reflexivity | assumption]].
      split; [discriminate|].
      intros [H1 H2]. rewrite H1, H2 in E. discriminate.
  - intros Hcl Hpos.
    assert (E : (len c =? 0) && closed c = false).
    { apply andb_false_iff. left. apply Z.eqb_neq. lia. }
    destruct (CircularBufferFacts.Read_ok c p Hwf Hcap E)
      as (c' & Er & Hwf' & _ & Hcl' & _ & Hcont).
    exists c'. rewrite CircularBufferFacts.peek_ok by assumption.
    split; [reflexivity|]. split; [exact Er|]. split; [assumption|].
    split; [congruence|assumption].
Qed.

Lemma Close_semantics_witness :
  wf sample /\ 0 < Capacity sample /\
  exists c1, Close sample = Some (c1, None) /\ wf c1 /\ closed c1 = true /\
             Capacity c1 = Capacity sample /\ contents c1 = contents sample.
Proof.
  split; [exact sample_wf|]. split; [reflexivity|].
  apply (Close_semantics sample []); [exact sample_wf | reflexivity..].
Defined.

(** C7.  Auto-grow policy of the second version: a [Write] of [k]
    bytes that finds [k] greater than capacity minus length, on an open
    buffer, reallocates: [resize] moves the buffered bytes in order to
    the front of storage whose size is the growth target (double the
    capacity up to 8192 bytes, 125% of it rounded down beyond), or the
    requested size [k + length] when that is larger, with the cursor at
    0; the [Write] then succeeds, writing all [k] bytes behind them. *)
Theorem Write_grows (c : t) (p : list byte) :
  wf c -> closed c = false ->
  Go.len p > Capacity c - Len c ->
  8 * (Capacity c + Go.len p) <= max_int ->
  exists c1 c',
    AutoGrow.resize c (Go.len p + Len c)
    = Some (c1, Z.max (AutoGrow.growth_target (Capacity c))
                      (Go.len p + Len c), None) /\
    Capacity c1 = Z.max (AutoGrow.growth_target (Capacity c))
                        (Go.len p + Len c) /\
    index c1 = 0 /\ Len c1 = Len c /\ contents c1 = contents c /\
    AutoGrow.Write c p = Some (c', Go.len p, None) /\
    Capacity c' = Capacity c1 /\ index c' = 0 /\
    Len c' = Len c + Go.len p /\
    contents c' = contents c ++ p /\ wf c'.
Proof.
  unfold Capacity, Len. intros Hwf Hopen Hgrow Hmax.
  pose proof Hwf as (Hc & Hl & _).
  pose proof (len_nonneg p) as Hp. pose proof (len_nonneg (buf c)) as Hb.
  unfold max_int in *.
  destruct (CircularBufferFacts.resize_ok c (Go.len p + len c))
    as (c1 & Er & Hwf1 & Hb1 & Hi1 & Hl1 & Ho1 & Hc1);
    try assumption; try (unfold max_int; lia).
  destruct (CircularBufferFacts.write_at_tail_ok c1 p)
    as (c' & Ew & Hwf' & Hb' & Hi' & Ho' & Hl' & Hc'); try assumption.
  { rewrite Hb1. lia. }
  { rewrite Hb1, Hl1. lia. }
  exists c1, c'.
  split; [exact Er|]. split; [exact Hb1|]. split; [exact Hi1|].
  split; [exact Hl1|]. split; [exact Hc1|].
  split.
  - unfold AutoGrow.Write. rewrite Hopen.
    unfold sub, add.
    rewrite !wrap_small by (unfold min_int, max_int; lia).
    destruct (Z.gtb_spec (Go.len p) (Go.len (buf c) - len c)); [|lia].
    rewrite Er. cbn [bind]. exact Ew.
  - split; [exact Hb'|]. split; [congruence|]. split; [congruence|].
    split; [congruence|assumption].
Qed.

Lemma Write_grows_witness :
  wf sample /\ closed sample = false /\
  Go.len [x65; x66; x67] > Capacity sample - Len sample /\
  8 * (Capacity sample + Go.len [x65; x66; x67]) <= max_int /\
  exists c1 c',
    AutoGrow.resize sample (Go.len [x65; x66; x67] + Len sample)
    = Some (c1, Z.max (AutoGrow.growth_target (Capacity sample))
                      (Go.len [x65; x66; x67] + Len sample), None) /\
    Capacity c1 = Z.max (AutoGrow.growth_target (Capacity sample))
                        (Go.len [x65; x66; x67] + Len sample) /\
    index c1 = 0 /\ Len c1 = Len sample /\ contents c1 = contents sample /\
    AutoGrow.Write sample [x65; x66; x67]
    = Some (c', Go.len [x65; x66; x67], None) /\
    Capacity c' = Capacity c1 /\ index c' = 0 /\
    Len c' = Len sample + Go.len [x65; x66; x67] /\
    contents c' = contents sample ++ [x65; x66; x67] /\ wf c'.
Proof.
  split; [exact sample_wf|]. split; [reflexivity|].
  split; [reflexivity|]. split; [unfold max_int; cbn; lia|].
  apply (Write_grows sample [x65; x66; x67]).
  - exact sample_wf.
  - reflexivity.
  - reflexivity.
  - unfold max_int; cbn; lia.
Defined.

(** ** The tokenizer *)

Module TokenizerFacts.

Import Tokenizer.

Lemma skipn_cons_elem (data : list byte) (n : nat) (b : byte) (r : list byte) :
  skipn n data = b :: r ->
  (n < List.length data)%nat /\
  elem data (Z.of_nat n) = Some b /\ skipn (S n) data = r.
Proof.
  intros H.
  assert (Hn : (n < List.length data)%nat).
  { destruct (Nat.lt_ge_cases n (List.length data)) as [|Hge]; [assumption|].
    rewrite skipn_all2 in H by assumption. discriminate. }
  split; [assumption|]. split.
  - unfold elem, Go.len.
    replace ((0 <=? Z.of_nat n) && (Z.of_nat n <? Z.of_nat (List.length data)))
      with true by (symmetry; rewrite andb_true_iff, Z.leb_le, Z.ltb_lt; lia).
    rewrite Nat2Z.id.
    rewrite <- (firstn_skipn n data) at 1.
    rewrite nth_error_app2 by (rewrite length_firstn; lia).
    rewrite length_firstn, H.
    replace (n - Nat.min n (List.length data))%nat with 0%nat by lia.
    reflexivity.
  - replace (S n) with (1 + n)%nat by lia.
    rewrite <- skipn_skipn, H. reflexivity.
Qed.

Lemma skipn_nil_len (data : list byte) (n : nat) :
  skipn n data = [] -> (List.length data <= n)%nat.
Proof.
  intros H. apply (f_equal (@List.length byte)) in H.
  rewrite length_skipn in H. cbn in H. lia.
Qed.

Lemma shift_S (k : nat) (o : option nat) :
  option_map S (shift k o) = shift (S k) o.
Proof. destruct o; reflexivity. Qed.

Lemma string_end_lt (l : list byte) :
  forall m k, string_end m l = Some k -> (k < List.length l)%nat.
Proof.
  induction l as [|b r IH]; intros m k H; [discriminate|].
  cbn [string_end] in H. cbn [List.length].
  destruct m; [discriminate| |].
  - destruct (Byte.eqb b backslash).
    + destruct (string_end Escaped r) eqn:E; [|discriminate].
      injection H as <-. apply IH in E. lia.
    + destruct (Byte.eqb b quote).
      * injection H as <-. lia.
      * destruct (string_end InString r) eqn:E; [|discriminate].
        injection H as <-. apply IH in E. lia.
  - destruct (string_end InString r) eqn:E; [|discriminate].
    injection H as <-. apply IH in E. lia.
Qed.

Lemma depth_scan_lt (l : list byte) :
  forall d m k, depth_scan d m l = Some k -> (k < List.length l)%nat.
Proof.
  induction l as [|b r IH]; intros d m k H; [discriminate|].
  cbn [depth_scan] in H. cbn [List.length].
  assert (Hstep : forall d' m',
             option_map S (depth_scan d' m' r) = Some k ->
             (k < S (List.length r))%nat).
  { intros d' m' H'. destruct (depth_scan d' m' r) eqn:E; [|discriminate].
    injection H' as <-. apply IH in E. lia. }
  destruct m.
  - destruct (Byte.eqb b rbrace).
    + destruct d as [|[|d]]; try (injection H as <-; lia).
      eapply Hstep; eassumption.
    + destruct (Byte.eqb b quote); [eapply Hstep; eassumption|].
      destruct (Byte.eqb b lbrace); eapply Hstep; eassumption.
  - destruct (Byte.eqb b backslash); [eapply Hstep; eassumption|].
    destruct (Byte.eqb b quote); eapply Hstep; eassumption.
  - eapply Hstep; eassumption.
Qed.

(** [matchQuote] finds the end of the string literal. *)
Lemma matchQuote_spec (data : list byte) (fuel : nat) :
  forall n,
    (List.length data - n < fuel)%nat ->
    matchQuote fuel data (Z.of_nat n)
    = Some (match string_end InString (skipn n data) with
            | Some k => (Z.of_nat (n + k), true)
            | None => (-1, false)
            end).
Proof.
  induction fuel as [|fuel IH]; intros n Hf; [lia|].
  cbn [matchQuote]. unfold Go.len.
  destruct (skipn n data) as [|b r] eqn:Es.
  - apply skipn_nil_len in Es.
    destruct (Z.ltb_spec (Z.of_nat n) (Z.of_nat (List.length data))); [lia|].
    reflexivity.
  - apply skipn_cons_elem in Es as (Hn & Eb & Er).
    destruct (Z.ltb_spec (Z.of_nat n) (Z.of_nat (List.length data))); [|lia].
    rewrite Eb. cbn [string_end].
    destruct (Byte.eqb b backslash).
    + replace (Z.of_nat n + 1 + 1) with (Z.of_nat (S (S n))) by lia.
      rewrite IH by lia.
      destruct r as [|x r'] eqn:Er'.
      * replace (skipn (S (S n)) data) with (@nil byte).
        2:{ symmetry. apply skipn_all2.
            apply skipn_nil_len in Er. lia. }
        reflexivity.
      * apply skipn_cons_elem in Er as (_ & _ & Er). rewrite Er.
        cbn [string_end].
        destruct (string_end InString r'); cbn [option_map];
          [do 2 f_equal; lia | reflexivity].
    + destruct (Byte.eqb b quote).
      * do 2 f_equal. lia.
      * replace (Z.of_nat n + 1) with (Z.of_nat (S n)) by lia.
        rewrite IH by lia. rewrite Er.
        destruct (string_end InString r); cbn [option_map];
          [do 2 f_equal; lia | reflexivity].
Qed.

(** A scan through a string literal goes on behind its closing
    quote. *)
Lemma depth_scan_string (l : list byte) :
  forall d m, m <> Code ->
    depth_scan d m l
    = match string_end m l with
      | Some k => shift (S k) (depth_scan d Code (skipn (S k) l))
      | None => None
      end.
Proof.
  induction l as [|b r IH]; intros d m Hm; [reflexivity|].
  cbn [depth_scan string_end].
  assert (Hstep : forall m', m' <> Code ->
            option_map S (depth_scan d m' r)
            = match option_map S (string_end m' r) with
              | Some k => shift (S k) (depth_scan d Code (skipn (S k) (b :: r)))
              | None => None
              end).
  { intros m' Hm'. rewrite (IH d m' Hm').
    destruct (string_end m' r) as [k|]; [|reflexivity].
    cbn [option_map]. rewrite skipn_cons. apply shift_S. }
  destruct m; [contradiction| |].
  - destruct (Byte.eqb b backslash); [apply Hstep; discriminate|].
    destruct (Byte.eqb b quote); [|apply Hstep; discriminate].
    rewrite skipn_cons, skipn_O. unfold shift.
    destruct (depth_scan d Code r); reflexivity.
  - apply Hstep. discriminate.
Qed.

(** A scan with [a + d] braces pending is the scan that closes [a] of
    them followed by the scan that closes the other [d]. *)
Lemma depth_scan_split (l : list byte) :
  forall a d m, (1 <= a)%nat -> (1 <= d)%nat ->
    depth_scan (a + d) m l
    = match depth_scan a m l with
      | Some k => shift (S k) (depth_scan d Code (skipn (S k) l))
      | None => None
      end.
Proof.
  induction l as [|b r IH]; intros a d m Ha Hd; [reflexivity|].
  cbn [depth_scan].
  assert (Hstep : forall a' m', (1 <= a')%nat ->
            option_map S (depth_scan (a' + d) m' r)
            = match option_map S (depth_scan a' m' r) with
              | Some k => shift (S k) (depth_scan d Code (skipn (S k) (b :: r)))
              | None => None
              end).
  { intros a' m' Ha'. rewrite (IH a' d m' Ha' Hd).
    destruct (depth_scan a' m' r) as [k|]; [|reflexivity].
    cbn [option_map]. rewrite skipn_cons. apply shift_S. }
  destruct m.
  - destruct (Byte.eqb b rbrace).
    + destruct a as [|[|a]]; [lia| |].
      * destruct d as [|d]; [lia|]. cbn [Nat.add].
        rewrite skipn_cons, skipn_O. unfold shift.
        destruct (depth_scan (S d) Code r); reflexivity.
      * change (S (S a) + d)%nat with (S (S a + d)).
        cbn [Nat.add].
        change (S (a + d)) with (S a + d)%nat.
        apply Hstep. lia.
    + destruct (Byte.eqb b quote); [apply Hstep; assumption|].
      destruct (Byte.eqb b lbrace); [|apply Hstep; assumption].
      change (S (a + d)) with (S a + d)%nat. apply Hstep. lia.
  - destruct (Byte.eqb b backslash); [apply Hstep; assumption|].
    destruct (Byte.eqb b quote); apply Hstep; assumption.
  - apply Hstep; assumption.
Qed.

(** [matchBrace] finds the brace that closes the pending one. *)
Lemma matchBrace_spec (data : list byte) (fuel : nat) :
  forall n,
    (List.length data - n < fuel)%nat ->
    matchBrace fuel data (Z.of_nat n)
    = Some (match depth_scan 1 Code (skipn n data) with
            | Some k => (Z.of_nat (n + k), true)
            | None => (-1, false)
            end).
Proof.
  induction fuel as [|fuel IH]; intros n Hf; [lia|].
  cbn [matchBrace]. unfold Go.len.
  destruct (skipn n data) as [|b r] eqn:Es.
  - apply skipn_nil_len in Es.
    destruct (Z.ltb_spec (Z.of_nat n) (Z.of_nat (List.length data))); [lia|].
    reflexivity.
  - apply skipn_cons_elem in Es as (Hn & Eb & Er).
    destruct (Z.ltb_spec (Z.of_nat n) (Z.of_nat (List.length data))); [|lia].
    rewrite Eb. cbn [depth_scan].
    replace (Z.of_nat n + 1) with (Z.of_nat (S n)) by lia.
    destruct (Byte.eqb b rbrace); [do 2 f_equal; lia|].
    destruct (Byte.eqb b quote).
    { rewrite matchQuote_spec by lia. rewrite Er.
      rewrite depth_scan_string by discriminate.
      destruct (string_end InString r) as [k|] eqn:Ek; [|reflexivity].
      replace (Z.of_nat (S n + k) + 1) with (Z.of_nat (S (S (n + k)))) by lia.
      rewrite IH by lia.
      replace (skipn (S (S (n + k))) data) with (skipn (S k) r)
        by (rewrite <- Er, skipn_skipn; f_equal; lia).
      destruct (depth_scan 1 Code (skipn (S k) r)); cbn;
        [do 2 f_equal; lia | reflexivity]. }
    destruct (Byte.eqb b lbrace).
    { rewrite IH by lia. rewrite Er.
      change (depth_scan 2 Code r) with (depth_scan (1 + 1) Code r).
      rewrite (depth_scan_split r 1 1 Code) by lia.
      destruct (depth_scan 1 Code r) as [k|] eqn:Ek; [|reflexivity].
      replace (Z.of_nat (S n + k) + 1) with (Z.of_nat (S (S (n + k)))) by lia.
      rewrite IH by lia.
      replace (skipn (S (S (n + k))) data) with (skipn (S k) r)
        by (rewrite <- Er, skipn_skipn; f_equal; lia).
      destruct (depth_scan 1 Code (skipn (S k) r)); cbn;
        [do 2 f_equal; lia | reflexivity]. }
    rewrite IH by lia. rewrite Er.
    destruct (depth_scan 1 Code r); cbn; [do 2 f_equal; lia | reflexivity].
Qed.

Lemma IndexByte_from_spec (data : list byte) :
  forall i,
    IndexByte_from data lbrace i
    = match first_lbrace data with
      | Some s => i + Z.of_nat s
      | None => -1
      end.
Proof.
  induction data as [|b r IH]; intros i; [reflexivity|].
  cbn [IndexByte_from first_lbrace].
  destruct (Byte.eqb b lbrace); [cbn; lia|].
  rewrite IH. destruct (first_lbrace r); cbn [option_map]; lia.
Qed.

Lemma first_lbrace_lt (data : list byte) :
  forall s, first_lbrace data = Some s -> (s < List.length data)%nat.
Proof.
  induction data as [|b r IH]; intros s H; [discriminate|].
  cbn [first_lbrace] in H. cbn [List.length].
  destruct (Byte.eqb b lbrace); [injection H as <-; lia|].
  destruct (first_lbrace r) eqn:E; [|discriminate].
  injection H as <-. specialize (IH _ eq_refl). lia.
Qed.

End TokenizerFacts.

(** C3.  The object tokenizer returns, for every window and [atEOF]
    flag, what the brace-matched split of the specification returns:
    the token from the first opening brace to its matching closing
    brace inclusive (nested pairs tracked, nothing inside a string
    literal taken for a delimiter, a backslash escaping the next
    byte), the advance counting the noise before the token; on a
    window that ends before the match, no token and no error unless
    [atEOF], when it is the malformed-token error.  The noisy stream
    yields its first object and then, from the rest, its second; the
    cut object yields the error at end of stream and nothing before;
    a closing brace inside a string does not end the token. *)
Theorem JSONSplit_object_split :
  (forall data atEOF,
     Tokenizer.JSONSplit data atEOF
     = Some (Tokenizer.object_split data atEOF)) /\
  Tokenizer.JSONSplit Tokenizer.noisy_stream false
  = Some (11, Some Tokenizer.object_a, None) /\
  Tokenizer.JSONSplit (skipn 11 Tokenizer.noisy_stream) false
  = Some (11, Some Tokenizer.object_b, None) /\
  Tokenizer.JSONSplit Tokenizer.cut_object true
  = Some (0, None, Some ErrIncompleteJSON) /\
  Tokenizer.JSONSplit Tokenizer.cut_object false = Some (0, None, None) /\
  Tokenizer.JSONSplit (Tokenizer.quoted_brace ++ [x0a]) false
  = Some (9, Some Tokenizer.quoted_brace, None).
Proof.
  split; [|repeat split; reflexivity].
  intros data atEOF. unfold Tokenizer.JSONSplit, Tokenizer.object_split.
  unfold Tokenizer.IndexByte. rewrite TokenizerFacts.IndexByte_from_spec.
  destruct (Tokenizer.first_lbrace data) as [s|] eqn:Es.
  - pose proof (TokenizerFacts.first_lbrace_lt data s Es) as Hs.
    assert (E0 : atEOF && (Go.len data =? 0) = false).
    { apply andb_false_iff. right. apply Z.eqb_neq. unfold Go.len. lia. }
    rewrite E0.
    destruct (Z.eqb_spec (0 + Z.of_nat s) (-1)); [lia|].
    replace (0 + Z.of_nat s + 1) with (Z.of_nat (S s)) by lia.
    rewrite TokenizerFacts.matchBrace_spec by lia.
    destruct (Tokenizer.depth_scan 1 Tokenizer.Code (skipn (S s) data))
      as [k|] eqn:Ek; [|destruct atEOF; reflexivity].
    apply TokenizerFacts.depth_scan_lt in Ek. rewrite length_skipn in Ek.
    replace (0 + Z.of_nat s) with (Z.of_nat s) by lia.
    replace (Z.of_nat (S s + k) + 1) with (Z.of_nat (s + k + 2)) by lia.
    rewrite slice_nat by lia. cbn [bind].
    replace (s + k + 2 - s)%nat with (k + 2)%nat by lia.
    reflexivity.
  - destruct (atEOF && (Go.len data =? 0)); reflexivity.
Qed.

(** ** The filter engine *)

Module FilterFacts.

Import Filter.

(** The body of the goroutine's loop never leaves the function. *)
Lemma iteration_not_return (w : world) : returned (iteration w) = false.
Proof.
  unfold iteration.
  destruct (Chan.recv (CircularBuffer.C (cbuf (fp w)))); [|reflexivity].
  destruct (Bufio.Scan _ _) as [[[sc cb] ok]|]; reflexivity.
Qed.

Lemma for_ever_not_return {S} (body : S -> flow S) :
  (forall s, returned (body s) = false) ->
  forall n s, returned (for_ever n body s) = false.
Proof.
  intros Hb n. induction n as [|n IH]; intros s; [reflexivity|].
  cbn [for_ever]. specialize (Hb s).
  destruct (body s); try reflexivity; [apply IH | discriminate].
Qed.

Lemma slice_empty {A} (s : list A) : slice s 0 0 = Some [].
Proof.
  unfold slice. pose proof (len_nonneg s) as H.
  apply Z.leb_le in H. rewrite H. reflexivity.
Qed.

(** [Scan] on a scanner that has met the end of the stream with
    nothing pending: no token, no new error. *)
Lemma Scan_at_eof (s : Bufio.Scanner) (r : CircularBuffer.t) :
  Bufio.split s [] true = Some (0, None, None) ->
  Bufio.err s = Some EOF ->
  Bufio.start s = 0 -> Bufio.end_ s = 0 -> Bufio.done s = false ->
  Bufio.Scan s r
  = Some (Bufio.set_token (Bufio.set_scanCalled s true) None, r, false).
Proof.
  destruct s as [sp mx tok sb st en er em called dn]. cbn.
  intros Hsp -> -> -> ->.
  unfold Bufio.Scan. cbn [Bufio.done].
  change (3 + Z.to_nat (CircularBuffer.len r))%nat
    with (S (2 + Z.to_nat (CircularBuffer.len r))).
  remember (2 + Z.to_nat (CircularBuffer.len r))%nat as fuel.
  unfold Bufio.scan_loop; fold Bufio.scan_loop.
  cbn [Bufio.set_scanCalled Bufio.split Bufio.maxTokenSize Bufio.token
       Bufio.buf Bufio.start Bufio.end_ Bufio.err Bufio.empties
       Bufio.scanCalled Bufio.done Bufio.is_set].
  rewrite slice_empty. cbn [bind orb Z.gtb Z.compare]. rewrite Hsp.
  reflexivity.
Qed.

(** From the end of the stream each iteration runs through, calls the
    sink once with what the interpreters make of the empty token, and
    ends in the same state. *)
Lemma iteration_at_eof (w : world) :
  at_eof w ->
  exists w',
    iteration w = Next w' /\ at_eof w' /\
    Interpreters (fp w') = Interpreters (fp w) /\
    sink w' = sink w ++ [snd (run_interpreters (Interpreters (fp w)) [] [])].
Proof.
  unfold at_eof, eof_view. intros H.
  injection H as Hc Hsp He Hst Hen Hd.
  unfold iteration. rewrite Hc. cbn [Chan.recv Chan.pending Chan.closed].
  rewrite Scan_at_eof by assumption.
  unfold Bufio.Err, Bufio.Bytes.
  destruct (scanner w) as [sp mx tok sb st en er em called dn].
  cbn [Bufio.set_scanCalled Bufio.set_token Bufio.split Bufio.maxTokenSize
       Bufio.token Bufio.buf Bufio.start Bufio.end_ Bufio.err Bufio.empties
       Bufio.scanCalled Bufio.done] in *.
  subst. cbn [negb bytes_or_nil].
  eexists. split; [reflexivity|].
  unfold at_eof, eof_view.
  cbn [fp cbuf scanner sink Interpreters CircularBuffer.C
       CircularBuffer.set_C Bufio.split Bufio.err Bufio.start Bufio.end_
       Bufio.done Bufio.set_token Bufio.set_scanCalled].
  rewrite Hsp. repeat split.
Qed.

(** At the end of the stream the goroutine goes on for ever, one call
    of the sink per iteration. *)
Lemma goroutine_at_eof (n : nat) :
  forall w, at_eof w ->
    exists w', goroutine n w = Next w' /\ at_eof w' /\
               List.length (sink w') = (List.length (sink w) + n)%nat.
Proof.
  unfold goroutine. induction n as [|n IH]; intros w Hw.
  - exists w. split; [reflexivity|]. split; [assumption | lia].
  - destruct (iteration_at_eof w Hw) as (w1 & E1 & Hw1 & _ & Hs1).
    destruct (IH w1 Hw1) as (w' & E' & Hw' & Hl').
    exists w'. cbn [for_ever]. rewrite E1.
    split; [assumption|]. split; [assumption|].
    rewrite Hl', Hs1, length_app. cbn [List.length]. lia.
Qed.

(** What is seen of the sample filters. *)
Lemma closed_filter_view :
  option_map (fun w => (CircularBuffer.closed (cbuf (fp w)),
                        CircularBuffer.Len (cbuf (fp w))))
    closed_filter = Some (true, 0) /\
  option_map (fun w => option_map (fun w1 => (eof_view w1, sink w1))
                         (wake_up w))
    closed_filter
  = Some (Some (({| Chan.pending := false; Chan.closed := true |},
                 Some (0, None, None), Some EOF, 0, 0, false), [[]])).
Proof. split; vm_compute; reflexivity. Qed.

Lemma wake_up_next (w w' : world) :
  wake_up w = Some w' -> iteration w = Next w'.
Proof.
  unfold wake_up. destruct (iteration w); intros H; try discriminate.
  now injection H as ->.
Qed.

Lemma waits_blocked (w : world) :
  waits w = true -> iteration w = Blocked w.
Proof.
  unfold waits, iteration.
  destruct (Chan.recv _); [|reflexivity].
  destruct (Bufio.Scan _ _) as [[[sc cb] ok]|]; discriminate.
Qed.

End FilterFacts.

Import Filter.

(** C1, as the code has it.  The goroutine of a filter never returns:
    its loop has no exit, for a closed and drained buffer or any other
    reason.  On the filter whose buffer was closed before any write,
    every iteration runs through at once (the receive from the closed
    channel never waits) and the goroutine is still in its loop after
    any number of them, having called the sink once in each. *)
Theorem goroutine_never_returns :
  (forall n w, returned (goroutine n w) = false) /\
  (forall n, exists w w',
     closed_filter = Some w /\
     CircularBuffer.closed (cbuf (fp w)) = true /\
     CircularBuffer.Len (cbuf (fp w)) = 0 /\
     goroutine (S n) w = Next w' /\
     List.length (sink w') = S n).
Proof.
  split.
  - intros n w. unfold goroutine.
    apply FilterFacts.for_ever_not_return.
    exact FilterFacts.iteration_not_return.
  - intros n. destruct FilterFacts.closed_filter_view as [V0 V1].
    destruct closed_filter as [w|]; [|discriminate].
    cbn [option_map] in V0, V1.
    destruct (wake_up w) as [w1|] eqn:E1; [|discriminate].
    cbn [option_map] in V1.
    injection V0 as Hc Hl.
    assert (Hv : at_eof w1) by (unfold at_eof; congruence).
    assert (Hs : sink w1 = [[]]) by congruence.
    apply FilterFacts.wake_up_next in E1.
    destruct (FilterFacts.goroutine_at_eof n w1 Hv) as (w' & E' & _ & Hl').
    exists w, w'. split; [reflexivity|]. split; [assumption|].
    split; [assumption|]. split.
    + unfold goroutine in *. cbn [for_ever]. rewrite E1. exact E'.
    + rewrite Hl', Hs. reflexivity.
Qed.

(** C1 as stated fails: the buffer of this filter is closed and
    drained, and its goroutine has not returned after any number of
    iterations. *)
Lemma goroutine_survives_closed_drained :
  exists w,
    closed_filter = Some w /\
    CircularBuffer.closed (cbuf (fp w)) = true /\
    CircularBuffer.Len (cbuf (fp w)) = 0 /\
    forall n, returned (goroutine n w) = false.
Proof.
  destruct FilterFacts.closed_filter_view as [V0 _].
  destruct closed_filter as [w|]; [|discriminate].
  cbn [option_map] in V0. injection V0 as Hc Hl.
  exists w. split; [reflexivity|]. split; [assumption|].
  split; [assumption|].
  intros n. unfold goroutine.
  apply FilterFacts.for_ever_not_return.
  exact FilterFacts.iteration_not_return.
Qed.

(** C9, as the code has it.  [NewFilter] takes a split function and
    the interpreters (and the sink), no capacity: the buffer it
    allocates is empty, open and of capacity 4000, whatever the
    arguments. *)
Theorem NewFilter_capacity (splitter : Tokenizer.SplitFunc)
  (terps : list Interpreter) :
  exists w,
    NewFilter splitter terps = Some w /\
    CircularBuffer.Capacity (cbuf (fp w)) = 4000 /\
    CircularBuffer.Len (cbuf (fp w)) = 0 /\
    CircularBuffer.closed (cbuf (fp w)) = false /\
    Interpreters (fp w) = terps /\ sink w = [].
Proof.
  eexists. split; [reflexivity|].
  split; [vm_compute; reflexivity|]. repeat split.
Qed.

(** C9 as stated fails: no capacity other than 4000 can be had from
    the constructor. *)
Lemma NewFilter_ignores_capacity :
  ~ (forall capacity : Z, 0 < capacity ->
     forall splitter terps w,
       NewFilter splitter terps = Some w ->
       CircularBuffer.Capacity (cbuf (fp w)) = capacity).
Proof.
  intros H.
  pose proof (H 8000 ltac:(lia) Tokenizer.JSONSplit [] _ eq_refl) as H'.
  vm_compute in H'. discriminate.
Qed.

(** C2 at its failing input.  The filter was written an object cut
    after the colon and closed.  On the wake-up the scanner reports
    the malformed token without moving past the five bytes it holds;
    the iteration calls the sink with the diagnostic record and then a
    second time, with what the interpreters make of the empty token;
    the next wake-up does the same again. *)
Theorem malformed_token_calls_sink_twice :
  exists w w1 w2,
    cut_filter = Some w /\
    iteration w = Next w1 /\
    Bufio.Err (scanner w1) = Some ErrIncompleteJSON /\
    pending_window w1 = Some Tokenizer.cut_object /\
    sink w1 = [diagnostic ErrIncompleteJSON;
               [("token"%string, VString ""%string)]] /\
    iteration w1 = Next w2 /\
    sink w2 = sink w1 ++ [diagnostic ErrIncompleteJSON;
                          [("token"%string, VString ""%string)]].
Proof.
  assert (V : option_map
                (fun w =>
                   option_map
                     (fun w1 =>
                        (Bufio.Err (scanner w1), pending_window w1, sink w1,
                         option_map sink (wake_up w1)))
                     (wake_up w))
                cut_filter
              = Some (Some (Some ErrIncompleteJSON,
                            Some Tokenizer.cut_object,
                            [diagnostic ErrIncompleteJSON;
                             [("token"%string, VString ""%string)]],
                            Some ([diagnostic ErrIncompleteJSON;
                                   [("token"%string, VString ""%string)]]
                                  ++ [diagnostic ErrIncompleteJSON;
                                      [("token"%string,
                                        VString ""%string)]]))))
    by (vm_compute; reflexivity).
  destruct cut_filter as [w|]; [|discriminate]. cbn [option_map] in V.
  destruct (wake_up w) as [w1|] eqn:E1; [|discriminate].
  cbn [option_map] in V.
  destruct (wake_up w1) as [w2|] eqn:E2; [|discriminate].
  cbn [option_map] in V. injection V as He Hp Hs Hs2.
  apply FilterFacts.wake_up_next in E1, E2.
  exists w, w1, w2. rewrite Hs.
  repeat split; assumption.
Qed.

(** C5 at its failing input.  The filter was written two complete
    objects in one [Write].  The goroutine delivers the first and then
    waits on the channel, no pulse pending and the buffer empty, with
    the second object whole in the scanner's hands: the split function
    would return it. *)
Theorem second_token_stranded :
  exists w w',
    two_objects_filter = Some w /\
    (forall n, goroutine (2 + n) w = Blocked w') /\
    sink w' = [[("token"%string,
                 VString (string_of_list_byte Tokenizer.object_a))]] /\
    CircularBuffer.Len (cbuf (fp w')) = 0 /\
    Chan.pending (CircularBuffer.C (cbuf (fp w'))) = false /\
    pending_window w' = Some Tokenizer.object_b /\
    Tokenizer.JSONSplit Tokenizer.object_b false
    = Some (7, Some Tokenizer.object_b, None).
Proof.
  assert (V : option_map
                (fun w =>
                   option_map
                     (fun w1 =>
                        (waits w1, sink w1,
                         CircularBuffer.Len (cbuf (fp w1)),
                         Chan.pending (CircularBuffer.C (cbuf (fp w1))),
                         pending_window w1))
                     (wake_up w))
                two_objects_filter
              = Some (Some (true,
                            [[("token"%string,
                               VString (string_of_list_byte
                                          Tokenizer.object_a))]],
                            0, false, Some Tokenizer.object_b)))
    by (vm_compute; reflexivity).
  destruct two_objects_filter as [w|]; [|discriminate].
  cbn [option_map] in V.
  destruct (wake_up w) as [w1|] eqn:E1; [|discriminate].
  cbn [option_map] in V. injection V as Hw Hs Hl Hp Hpw.
  apply FilterFacts.wake_up_next in E1.
  apply FilterFacts.waits_blocked in Hw.
  exists w, w1. split; [reflexivity|]. split.
  - intros n. unfold goroutine. change (2 + n)%nat with (S (S n)).
    cbn [for_ever]. rewrite E1, Hw. reflexivity.
  - split; [assumption|]. split; [assumption|]. split; [assumption|].
    split; [assumption|]. vm_compute. reflexivity.
Qed.

(** ** More on the circular buffer *)

Module BufferMore.

Import CircularBuffer Calls.

Lemma wrap_sub_small (a b : Z) :
  0 <= b <= a -> a <= max_int -> sub a b = a - b.
Proof.
  intros H1 H2. unfold sub, max_int in *.
  apply wrap_small. unfold min_int, max_int. lia.
Qed.

(** The channel after [addLen]. *)
Lemma addLen_chan (c c' : t) (n : Z) :
  Chan.closed (C c) = closed c ->
  addLen c n = Some c' ->
  C c' = (if negb (add (len c) n =? 0) && negb (closed c)
          then {| Chan.pending := true; Chan.closed := false |}
          else C c).
Proof.
  intros Hs H.
  destruct (CircularBufferFacts.addLen_ok c n Hs) as (ch & E & _ & Hch).
  rewrite E in H. injection H as <-. exact Hch.
Qed.

(** The channel after the shared tail of [Write]. *)
Lemma write_at_tail_chan (c c' : t) (p : list byte) (n : Z)
  (e : option error) :
  Chan.closed (C c) = closed c ->
  write_at_tail c p = Some (c', n, e) ->
  C c' = (if negb (add (len c) (Go.len p) =? 0) && negb (closed c)
          then {| Chan.pending := true; Chan.closed := false |}
          else C c).
Proof.
  intros Hs. unfold write_at_tail.
  destruct (rem _ _) as [s|]; [|discriminate]. cbn [bind].
  destruct (Go.len p <? _).
  - destruct (copy_into _ _ _ _) as [[b k]|]; [|discriminate]. cbn [bind].
    destruct (addLen (set_buf c b) (Go.len p)) as [c1|] eqn:Ea;
      [|discriminate].
    cbn [bind]. intros H. injection H as <- _ _.
    apply (addLen_chan (set_buf c b) c1 (Go.len p) Hs Ea).
  - destruct (slice_to p _) as [p1|]; [|discriminate]. cbn [bind].
    destruct (copy_into _ _ _ p1) as [[b k]|]; [|discriminate]. cbn [bind].
    destruct (slice_from p _) as [p2|]; [|discriminate]. cbn [bind].
    destruct (copy_into b _ _ p2) as [[b2 m]|]; [|discriminate]. cbn [bind].
    destruct (addLen (set_buf c b2) (Go.len p)) as [c1|] eqn:Ea;
      [|discriminate].
    cbn [bind]. intros H. injection H as <- _ _.
    apply (addLen_chan (set_buf c b2) c1 (Go.len p) Hs Ea).
Qed.

(** The channel after [consume]. *)
Lemma consume_chan (c c' : t) (n m : Z) :
  Chan.closed (C c) = closed c ->
  consume c n = Some (c', m) ->
  C c' = (if negb (add (len c) (wrap (- m)) =? 0) && negb (closed c)
          then {| Chan.pending := true; Chan.closed := false |}
          else C c).
Proof.
  intros Hs. unfold consume.
  destruct (rem _ _) as [i|]; [|discriminate]. cbn [bind].
  destruct (addLen _ _) as [c1|] eqn:Ea; [|discriminate]. cbn [bind].
  intros H. injection H as <- <-.
  exact (addLen_chan (set_index c i) c1 _ Hs Ea).
Qed.

End BufferMore.

(** X1.  The first version rejects, on an open buffer, a write that
    does not fit: it returns 0 and [ErrNoRoom] and leaves the buffer
    as it was. *)
Theorem Write_rejects_oversize (c : t) (p : list byte) :
  wf c -> closed c = false -> Go.len p > Capacity c - Len c ->
  FailFast.Write c p = Some (c, 0, Some ErrNoRoom).
Proof.
  unfold Capacity, Len. intros (Hc & Hl & _) Hopen Hbig.
  unfold FailFast.Write. rewrite Hopen.
  rewrite BufferMore.wrap_sub_small by (unfold max_int in *; lia).
  destruct (Z.gtb_spec (Go.len p) (Go.len (buf c) - len c)); [reflexivity|lia].
Qed.

Lemma Write_rejects_oversize_witness :
  wf sample /\ closed sample = false /\
  Go.len [x65; x66] > Capacity sample - Len sample /\
  FailFast.Write sample [x65; x66] = Some (sample, 0, Some ErrNoRoom).
Proof.
  split; [exact sample_wf|]. split; [reflexivity|]. split; [reflexivity|].
  apply (Write_rejects_oversize sample [x65; x66]);
    [exact sample_wf | reflexivity | reflexivity].
Defined.

(** X2.  [Read] and [Peek] never wait: on an open buffer that holds
    nothing they return 0 bytes and no error, and leave the
    destination and the buffer as they were. *)
Theorem Read_never_waits (c : t) (p : list byte) :
  wf c -> 0 < Capacity c -> closed c = false -> Len c = 0 ->
  Peek c p = Some (p, 0, None) /\ Read c p = Some (c, p, 0, None).
Proof.
  unfold Capacity, Len, Peek. intros Hwf Hcap Hopen Hlen.
  assert (Hne : (len c =? 0) && closed c = false)
    by (rewrite Hopen; apply andb_false_r).
  pose proof (len_nonneg p) as Hp.
  assert (Ep : peek c p = Some (p, 0, None)).
  { rewrite CircularBufferFacts.peek_ok by assumption.
    rewrite Hlen. change (Z.to_nat 0) with 0%nat.
    rewrite Nat.min_0_r. cbn [firstn skipn app].
    replace (Z.min (Go.len p) 0) with 0 by lia. reflexivity. }
  split; [exact Ep|].
  unfold Read. rewrite Ep. cbn [bind].
  destruct Hwf as (Hc & Hl & Hi0 & Hi & Hs). unfold max_int in Hc.
  unfold consume. rewrite Hlen.
  change (if 0 >? 0 then 0 else 0) with 0.
  unfold add. rewrite Z.add_0_r.
  rewrite wrap_small by (unfold min_int, max_int; lia).
  unfold rem. destruct (Z.eqb_spec (Go.len (buf c)) 0); [lia|].
  rewrite Z.rem_small by lia. cbn [bind].
  unfold addLen. cbn [len set_len set_index closed].
  rewrite Hlen. change (wrap (- 0)) with 0. change (wrap (0 + 0)) with 0.
  cbn [Z.eqb negb andb bind].
  destruct c as [ch b l i cl]. cbn in *. subst. reflexivity.
Qed.

Lemma Read_never_waits_witness :
  wf (set_len sample 0) /\ 0 < Capacity (set_len sample 0) /\
  closed (set_len sample 0) = false /\ Len (set_len sample 0) = 0 /\
  Peek (set_len sample 0) [x00] = Some ([x00], 0, None) /\
  Read (set_len sample 0) [x00] = Some (set_len sample 0, [x00], 0, None).
Proof.
  assert (Hwf : wf (set_len sample 0)).
  { unfold wf, sample, Go.len, max_int. cbn.
    split; [lia|]. split; [lia|]. split; [lia|]. split; [lia|reflexivity]. }
  split; [exact Hwf|]. split; [reflexivity|]. split; [reflexivity|].
  split; [reflexivity|].
  apply (Read_never_waits (set_len sample 0) [x00]);
    [exact Hwf | reflexivity | reflexivity | reflexivity].
Defined.

(** X3.  Notification by [Write]: a write of at least one byte that an
    open buffer accepts leaves exactly one pulse pending on the
    channel, whatever was pending before. *)
Theorem Write_leaves_one_pulse (c : t) (p : list byte) :
  wf c -> 0 < Capacity c -> closed c = false ->
  0 < Go.len p <= Capacity c - Len c ->
  exists c',
    FailFast.Write c p = Some (c', Go.len p, None) /\
    AutoGrow.Write c p = Some (c', Go.len p, None) /\
    Listen c' = {| Chan.pending := true; Chan.closed := false |}.
Proof.
  unfold Capacity, Len, Listen. intros Hwf Hcap Hopen Hp.
  destruct (CircularBufferFacts.write_at_tail_ok c p Hwf Hcap Hopen)
    as (c' & Ew & _); [lia|].
  pose proof Hwf as (Hc & Hl & _ & _ & Hs). unfold max_int in Hc.
  exists c'.
  assert (Esub : sub (Go.len (buf c)) (len c) = Go.len (buf c) - len c)
    by (apply BufferMore.wrap_sub_small; unfold max_int; lia).
  split; [|split].
  - unfold FailFast.Write. rewrite Hopen, Esub.
    destruct (Z.gtb_spec (Go.len p) (Go.len (buf c) - len c)); [lia|].
    exact Ew.
  - unfold AutoGrow.Write. rewrite Hopen, Esub.
    destruct (Z.gtb_spec (Go.len p) (Go.len (buf c) - len c)); [lia|].
    cbn [bind]. exact Ew.
  - rewrite (BufferMore.write_at_tail_chan c c' p _ _ Hs Ew).
    rewrite Hopen. unfold add.
    rewrite wrap_small by (unfold min_int, max_int; lia).
    destruct (Z.eqb_spec (len c + Go.len p) 0); [lia|]. reflexivity.
Qed.

Lemma Write_leaves_one_pulse_witness :
  wf sample /\ 0 < Capacity sample /\ closed sample = false /\
  0 < Go.len [x65] <= Capacity sample - Len sample /\
  exists c',
    FailFast.Write sample [x65] = Some (c', Go.len [x65], None) /\
    AutoGrow.Write sample [x65] = Some (c', Go.len [x65], None) /\
    Listen c' = {| Chan.pending := true; Chan.closed := false |}.
Proof.
  split; [exact sample_wf|]. split; [reflexivity|]. split; [reflexivity|].
  split; [cbn; lia|].
  apply (Write_leaves_one_pulse sample [x65]);
    [exact sample_wf | reflexivity | reflexivity | cbn; lia].
Defined.

(** X4.  Notification by [Consume], for a count that is not negative:
    on an open buffer a partial consume leaves a pulse pending, a
    consume that empties the buffer leaves the channel as it was; on a
    closed buffer nothing is ever sent. *)
Theorem Consume_pulses_while_bytes_remain (c : t) (n : Z) :
  wf c -> 0 < Capacity c -> 0 <= n ->
  exists c',
    Consume c n = Some (c', Z.min n (Len c)) /\
    (closed c = false -> n < Len c ->
     Listen c' = {| Chan.pending := true; Chan.closed := false |}) /\
    (Len c <= n -> Listen c' = Listen c) /\
    (closed c = true -> Listen c' = Listen c).
Proof.
  unfold Capacity, Len, Listen, Consume. intros Hwf Hcap Hn.
  destruct (CircularBufferFacts.consume_ok c n Hwf Hcap Hn)
    as (c' & Ec & _).
  pose proof Hwf as (Hc & Hl & _ & _ & Hs). unfold max_int in Hc.
  exists c'. split; [exact Ec|].
  pose proof (BufferMore.consume_chan c c' n _ Hs Ec) as Hch.
  assert (E : add (len c) (wrap (- Z.min n (len c)))
              = len c - Z.min n (len c)).
  { unfold add.
    rewrite (wrap_small (- Z.min n (len c)))
      by (unfold min_int, max_int; lia).
    rewrite wrap_small by (unfold min_int, max_int; lia). lia. }
  rewrite E in Hch. clear E.
  split; [|split].
  - intros Hopen Hlt. rewrite Hch, Hopen.
    destruct (Z.eqb_spec (len c - Z.min n (len c)) 0); [lia|]. reflexivity.
  - intros Hge. rewrite Hch.
    destruct (Z.eqb_spec (len c - Z.min n (len c)) 0); [|lia]. reflexivity.
  - intros Hcl. rewrite Hch, Hcl. cbn [negb]. rewrite andb_false_r.
    reflexivity.
Qed.

Lemma Consume_pulses_while_bytes_remain_witness :
  wf sample /\ 0 < Capacity sample /\ 0 <= 1 /\
  exists c',
    Consume sample 1 = Some (c', Z.min 1 (Len sample)) /\
    (closed sample = false -> 1 < Len sample ->
     Listen c' = {| Chan.pending := true; Chan.closed := false |}) /\
    (Len sample <= 1 -> Listen c' = Listen sample) /\
    (closed sample = true -> Listen c' = Listen sample).
Proof.
  split; [exact sample_wf|]. split; [reflexivity|]. split; [lia|].
  apply (Consume_pulses_while_bytes_remain sample 1);
    [exact sample_wf | reflexivity | lia].
Defined.

(** X5.  The two versions agree on every write that fits: the second
    version's [Write] returns what the first version's returns and
    leaves the same buffer, open or closed. *)
Theorem Write_versions_agree (c : t) (p : list byte) :
  wf c -> Go.len p <= Capacity c - Len c ->
  AutoGrow.Write c p = FailFast.Write c p.
Proof.
  unfold Capacity, Len. intros (Hc & Hl & _) Hfit.
  unfold AutoGrow.Write, FailFast.Write.
  destruct (closed c); [reflexivity|].
  rewrite BufferMore.wrap_sub_small by (unfold max_int in *; lia).
  destruct (Z.gtb_spec (Go.len p) (Go.len (buf c) - len c)); [lia|].
  reflexivity.
Qed.

Lemma Write_versions_agree_witness :
  wf sample /\ Go.len [x65] <= Capacity sample - Len sample /\
  AutoGrow.Write sample [x65] = FailFast.Write sample [x65].
Proof.
  split; [exact sample_wf|]. split; [cbn; lia|].
  apply (Write_versions_agree sample [x65]); [exact sample_wf | cbn; lia].
Defined.

(** X6.  A buffer of capacity 0 faults on the remainder by its
    capacity: [Consume] of any count, [Read] into any destination and
    the write of an empty slice (in both versions) panic; the first
    version rejects every other write with [ErrNoRoom], the second
    grows and accepts it. *)
Theorem zero_capacity_faults (n : Z) (p : list byte) (b : byte) :
  exists c,
    NewCircularBuffer 0 = Some c /\
    Consume c n = None /\ Read c p = None /\
    FailFast.Write c [] = None /\ AutoGrow.Write c [] = None /\
    FailFast.Write c (b :: p) = Some (c, 0, Some ErrNoRoom) /\
    exists c', AutoGrow.Write c [b] = Some (c', 1, None) /\
               contents c' = [b] /\ Capacity c' = 1.
Proof.
  eexists. split; [reflexivity|].
  split; [reflexivity|].
  split.
  { assert (Hc : forall k, consume
                    {| C := Chan.make; buf := []; len := 0; index := 0;
                       closed := false |} k = None) by reflexivity.
    unfold Read, peek. cbn [len closed Z.eqb andb buf index].
    destruct (_ <? _).
    - destruct (slice _ _ _) as [src|]; [|reflexivity]. cbn [bind].
      destruct (copy p src) as [[p1 k]|]; [|reflexivity]. cbn [bind].
      rewrite Hc. reflexivity.
    - destruct (slice_from _ _) as [src|]; [|reflexivity]. cbn [bind].
      destruct (copy p src) as [[p1 k]|]; [|reflexivity]. cbn [bind].
      destruct (slice_to _ _) as [src2|]; [|reflexivity]. cbn [bind].
      destruct (copy_into p1 _ _ src2) as [[p2 m]|]; [|reflexivity].
      cbn [bind]. rewrite Hc. reflexivity. }
  split; [reflexivity|]. split; [reflexivity|].
  split.
  { unfold FailFast.Write. cbn [closed buf len].
    change (sub (Go.len (@nil byte)) 0) with 0.
    destruct (Z.gtb_spec (Go.len (b :: p)) 0); [reflexivity|].
    unfold Go.len in *. cbn [List.length] in *. lia. }
  eexists. split; [vm_compute; reflexivity|]. split; reflexivity.
Qed.

(** ** Sequences of calls *)

Module CallFacts.

Import CircularBuffer Calls.





(** The second version's [Write] on an open buffer: it never fails. *)
Lemma AutoGrow_Write_ok (c : t) (p : list byte) :
  wf c -> 0 < Go.len (buf c) -> closed c = false ->
  8 * (Go.len (buf c) + Go.len p) <= max_int ->
  exists c',
    AutoGrow.Write c p = Some (c', Go.len p, None) /\
    wf c' /\ closed c' = false /\
    len c' = len c + Go.len p /\
    contents c' = contents c ++ p /\
    Go.len (buf c) <= Go.len (buf c') /\
    Go.len (buf c') <= Z.max (Go.len (buf c)) (2 * (Go.len p + len c)).
Proof.
  intros Hwf Hcap Hopen Hmax.
  pose proof Hwf as (Hc & Hl & _).
  pose proof (len_nonneg p) as Hp.
  unfold max_int in *.
  assert (Esub : sub (Go.len (buf c)) (len c) = Go.len (buf c) - len c)
    by (apply BufferMore.wrap_sub_small; unfold max_int; lia).
  destruct (Z_gt_le_dec (Go.len p) (Go.len (buf c) - len c)) as [Hbig|Hfit].
  - destruct (CircularBufferFacts.resize_ok c (Go.len p + len c))
      as (c1 & Er & Hwf1 & Hb1 & Hi1 & Hl1 & Ho1 & Hc1);
      try assumption; try (unfold max_int; lia).
    assert (Htg : AutoGrow.growth_target (Go.len (buf c))
                  <= 2 * Go.len (buf c)).
    { unfold AutoGrow.growth_target.
      destruct (Z.leb_spec (Go.len (buf c)) 8192); [lia|].
      apply Z.div_le_upper_bound; lia. }
    assert (Htl : Go.len (buf c)
                  <= AutoGrow.growth_target (Go.len (buf c))).
    { unfold AutoGrow.growth_target.
      destruct (Z.leb_spec (Go.len (buf c)) 8192); [lia|].
      apply Z.div_le_lower_bound; lia. }
    destruct (CircularBufferFacts.write_at_tail_ok c1 p)
      as (c' & Ew & Hwf' & Hb' & Hi' & Ho' & Hl' & Hc'); try assumption.
    { rewrite Hb1. lia. }
    { rewrite Hb1, Hl1. lia. }
    exists c'. split.
    { unfold AutoGrow.Write. rewrite Hopen, Esub.
      destruct (Z.gtb_spec (Go.len p) (Go.len (buf c) - len c)); [|lia].
      unfold add. rewrite wrap_small by (unfold min_int, max_int; lia).
      rewrite Er. cbn [bind]. exact Ew. }
    split; [assumption|]. split; [assumption|].
    split; [congruence|]. split; [congruence|].
    rewrite Hb', Hb1. lia.
  - destruct (CircularBufferFacts.write_at_tail_ok c p Hwf Hcap Hopen Hfit)
      as (c' & Ew & Hwf' & Hb' & Hi' & Ho' & Hl' & Hc').
    exists c'. split.
    { unfold AutoGrow.Write. rewrite Hopen, Esub.
      destruct (Z.gtb_spec (Go.len p) (Go.len (buf c) - len c)); [lia|].
      cbn [bind]. exact Ew. }
    split; [assumption|]. split; [assumption|].
    split; [assumption|]. split; [assumption|].
    rewrite Hb'. lia.
Qed.

Lemma len_app {A} (l1 l2 : list A) :
  Go.len (l1 ++ l2) = Go.len l1 + Go.len l2.
Proof. unfold Go.len. rewrite length_app. lia. Qed.

(** A run on the second version: with [a] bounding the length and half
    the capacity, and the sizes far from the bound of [int], every
    call returns and every write is accepted. *)
Lemma run_grow_ok (ops : list op) :
  forall c a,
    wf c -> 0 < Go.len (buf c) -> closed c = false ->
    Go.len (buf c) <= 2 * a -> len c <= a ->
    16 * (a + Go.len (written ops)) <= max_int ->
    exists c' evs,
      run_grow c ops = Some (c', evs) /\
      wf c' /\ writes_accepted ops evs /\
      contents c ++ written ops = read_back evs ++ contents c' /\
      Go.len (buf c) <= Go.len (buf c').
Proof.
  induction ops as [|o ops IH]; intros c a Hwf Hcap Hopen Hca Hla Hmax.
  - exists c, []. cbn [run_grow written read_back writes_accepted app].
    rewrite app_nil_r.
    split; [reflexivity|]. split; [assumption|]. split; [exact I|].
    split; [reflexivity | lia].
  - pose proof Hwf as (_ & Hl & _).
    pose proof (len_nonneg (written ops)) as Hw.
    unfold max_int in *.
    destruct o as [p | size]; cbn [written] in Hmax.
    + rewrite len_app in Hmax. pose proof (len_nonneg p) as Hp.
      destruct (AutoGrow_Write_ok c p Hwf Hcap Hopen)
        as (c1 & Ew & Hwf1 & Ho1 & Hl1 & Hc1 & Hb1 & Hb2);
        [unfold max_int; lia|].
      destruct (IH c1 (a + Go.len p))
        as (c' & evs & Er & Hwf' & Hacc & Hinv & Hb');
        try assumption; try lia.
      exists c', (Wrote (Go.len p) None :: evs).
      cbn [run_grow]. rewrite Ew. cbn [bind]. rewrite Er. cbn [bind].
      split; [reflexivity|]. split; [assumption|].
      split; [cbn; auto|].
      cbn [written read_back]. rewrite <- Hinv, Hc1, <- app_assoc.
      split; [reflexivity | lia].
    + assert (Hne : (len c =? 0) && closed c = false)
        by (rewrite Hopen; apply andb_false_r).
      destruct (CircularBufferFacts.Read_ok c (repeat x00 size) Hwf Hcap Hne)
        as (c1 & Er1 & Hwf1 & Hb1 & Hcl1 & Hl1 & Hc1).
      rewrite repeat_length in *.
      unfold Go.len in Er1, Hl1. rewrite repeat_length in Er1, Hl1.
      destruct (IH c1 a) as (c' & evs & Er & Hwf' & Hacc & Hinv & Hb');
        try assumption; try lia.
      { rewrite Hb1. assumption. }
      { congruence. }
      { rewrite Hb1. assumption. }
      eexists c', _.
      cbn [run_grow]. rewrite Er1. cbn [bind]. rewrite Er. cbn [bind].
      split; [reflexivity|]. split; [assumption|].
      split; [exact Hacc|].
      cbn [written read_back].
      replace (Z.to_nat (Z.min (Z.of_nat size) (len c)))
        with (Nat.min size (Z.to_nat (len c))) by lia.
      rewrite firstn_app, length_firstn,
        CircularBufferFacts.length_contents_wf by assumption.
      replace (Nat.min size (Z.to_nat (len c))
               - Nat.min (Nat.min size (Z.to_nat (len c))) (Z.to_nat (len c)))%nat
        with 0%nat by lia.
      rewrite firstn_O, app_nil_r, firstn_firstn, Nat.min_id.
      rewrite <- app_assoc, <- Hinv, Hc1, app_assoc, firstn_skipn.
      split; [reflexivity|]. rewrite <- Hb1. assumption.
Qed.

End CallFacts.

Import Calls.



(** X8.  Round trip of the second version, with no bound on the
    occupancy: for a capacity [C > 0] and any interleaving of writes
    and reads (the sizes far from the bound of [int]), every call
    returns, every write is accepted whole, the capacity never drops
    below [C], and the bytes read back followed by the bytes still
    buffered are the bytes written, in order. *)
Theorem auto_grow_round_trip (capacity : Z) (ops : list op) :
  0 < capacity ->
  16 * (capacity + Go.len (written ops)) <= max_int ->
  exists c c' evs,
    NewCircularBuffer capacity = Some c /\
    run_grow c ops = Some (c', evs) /\
    writes_accepted ops evs /\
    read_back evs ++ contents c' = written ops /\
    capacity <= Capacity c' /\
    (Len c' = 0 -> read_back evs = written ops).
Proof.
  intros Hpos Hmax.
  pose proof (len_nonneg (written ops)) as Hw.
  destruct (CircularBufferFacts.NewCircularBuffer_ok capacity)
    as (c & En & Hwf & Hcap & Hlen & _ & Hopen & Hnil);
    try (unfold max_int in *; lia).
  unfold Capacity in *.
  destruct (CallFacts.run_grow_ok ops c capacity)
    as (c' & evs & Er & Hwf' & Hacc & Hinv & Hb); try assumption; try lia.
  exists c, c', evs. rewrite Hnil in Hinv. cbn [app] in Hinv.
  split; [assumption|]. split; [assumption|]. split; [assumption|].
  split; [symmetry; assumption|]. split; [lia|].
  intros H0. unfold Len in H0.
  pose proof (CircularBufferFacts.length_contents_wf c' Hwf') as L.
  rewrite H0 in L. destruct (contents c'); [|discriminate].
  rewrite app_nil_r in Hinv. symmetry. assumption.
Qed.

Lemma auto_grow_round_trip_witness :
  0 < 2 /\
  16 * (2 + Go.len (written [OpWrite [x61; x62; x63]; OpRead 2;
                             OpWrite [x64; x65; x66; x67]; OpRead 9]))
  <= max_int /\
  exists c c' evs,
    NewCircularBuffer 2 = Some c /\
    run_grow c [OpWrite [x61; x62; x63]; OpRead 2;
                OpWrite [x64; x65; x66; x67]; OpRead 9] = Some (c', evs) /\
    writes_accepted [OpWrite [x61; x62; x63]; OpRead 2;
                     OpWrite [x64; x65; x66; x67]; OpRead 9] evs /\
    read_back evs ++ contents c'
    = written [OpWrite [x61; x62; x63]; OpRead 2;
               OpWrite [x64; x65; x66; x67]; OpRead 9] /\
    2 <= Capacity c' /\
    (Len c' = 0 ->
     read_back evs
     = written [OpWrite [x61; x62; x63]; OpRead 2;
                OpWrite [x64; x65; x66; x67]; OpRead 9]).
Proof.
  split; [lia|]. split; [unfold max_int; cbn; lia|].
  apply (auto_grow_round_trip 2
           [OpWrite [x61; x62; x63]; OpRead 2;
            OpWrite [x64; x65; x66; x67]; OpRead 9]).
  - lia.
  - unfold max_int; cbn; lia.
Defined.

(** ** More on the tokenizer *)

Module TokenizerMore.

Import Tokenizer TokenizerFacts.

(** [JSONSplit] computes the brace-matched split. *)
Lemma JSONSplit_refines (data : list byte) (atEOF : bool) :
  JSONSplit data atEOF = Some (object_split data atEOF).
Proof.
  unfold JSONSplit, object_split, IndexByte.
  rewrite IndexByte_from_spec.
  destruct (first_lbrace data) as [s|] eqn:Es.
  - pose proof (first_lbrace_lt data s Es) as Hs.
    assert (E0 : atEOF && (Go.len data =? 0) = false).
    { apply andb_false_iff. right. apply Z.eqb_neq. unfold Go.len. lia. }
    rewrite E0.
    destruct (Z.eqb_spec (0 + Z.of_nat s) (-1)); [lia|].
    replace (0 + Z.of_nat s + 1) with (Z.of_nat (S s)) by lia.
    rewrite matchBrace_spec by lia.
    destruct (depth_scan 1 Code (skipn (S s) data)) as [k|] eqn:Ek;
      [|destruct atEOF; reflexivity].
    apply depth_scan_lt in Ek. rewrite length_skipn in Ek.
    replace (0 + Z.of_nat s) with (Z.of_nat s) by lia.
    replace (Z.of_nat (S s + k) + 1) with (Z.of_nat (s + k + 2)) by lia.
    rewrite slice_nat by lia. cbn [bind].
    replace (s + k + 2 - s)%nat with (k + 2)%nat by lia.
    reflexivity.
  - destruct (atEOF && (Go.len data =? 0)); reflexivity.
Qed.

(** What a returned token tells of the scan. *)
Lemma token_inv (data : list byte) (atEOF : bool) (adv : Z)
  (tok : list byte) (e : option error) :
  JSONSplit data atEOF = Some (adv, Some tok, e) ->
  exists s k,
    first_lbrace data = Some s /\
    depth_scan 1 Code (skipn (S s) data) = Some k /\
    (s + k + 2 <= List.length data)%nat /\
    adv = Z.of_nat (s + k + 2) /\
    tok = firstn (k + 2) (skipn s data) /\ e = None.
Proof.
  rewrite JSONSplit_refines. unfold object_split. intros H.
  destruct (first_lbrace data) as [s|] eqn:Es; [|discriminate].
  destruct (depth_scan 1 Code (skipn (S s) data)) as [k|] eqn:Ek.
  - injection H as <- <- <-. exists s, k.
    pose proof (depth_scan_lt _ _ _ _ Ek) as Hk.
    rewrite length_skipn in Hk.
    pose proof (first_lbrace_lt data s Es).
    split; [reflexivity|]. split; [assumption|]. split; [lia|].
    repeat split.
  - destruct atEOF; discriminate.
Qed.

Lemma first_lbrace_app (l more : list byte) (s : nat) :
  first_lbrace l = Some s -> first_lbrace (l ++ more) = Some s.
Proof.
  revert s. induction l as [|b r IH]; intros s H; [discriminate|].
  cbn [first_lbrace app] in *.
  destruct (Byte.eqb b lbrace); [assumption|].
  destruct (first_lbrace r) as [s'|]; [|discriminate].
  rewrite (IH s' eq_refl). assumption.
Qed.

Lemma depth_scan_app (l more : list byte) :
  forall d m k,
    depth_scan d m l = Some k -> depth_scan d m (l ++ more) = Some k.
Proof.
  induction l as [|b r IH]; intros d m k H; [discriminate|].
  cbn [depth_scan app] in *.
  assert (Hstep : forall d' m',
            option_map S (depth_scan d' m' r) = Some k ->
            option_map S (depth_scan d' m' (r ++ more)) = Some k).
  { intros d' m' H'.
    destruct (depth_scan d' m' r) as [j|] eqn:E; [|discriminate].
    rewrite (IH d' m' j E). assumption. }
  destruct m.
  - destruct (Byte.eqb b rbrace).
    + destruct d as [|[|d]]; try assumption. apply Hstep. assumption.
    + destruct (Byte.eqb b quote); [apply Hstep; assumption|].
      destruct (Byte.eqb b lbrace); apply Hstep; assumption.
  - destruct (Byte.eqb b backslash); [apply Hstep; assumption|].
    destruct (Byte.eqb b quote); apply Hstep; assumption.
  - apply Hstep; assumption.
Qed.

(** The scan stops on a closing brace. *)
Lemma depth_scan_rbrace (l : list byte) :
  forall d m k, depth_scan d m l = Some k -> nth_error l k = Some rbrace.
Proof.
  induction l as [|b r IH]; intros d m k H; [discriminate|].
  cbn [depth_scan] in H.
  assert (Hstep : forall d' m',
            option_map S (depth_scan d' m' r) = Some k ->
            nth_error (b :: r) k = Some rbrace).
  { intros d' m' H'.
    destruct (depth_scan d' m' r) as [j|] eqn:E; [|discriminate].
    injection H' as <-. cbn [nth_error]. eapply IH. eassumption. }
  destruct m.
  - destruct (Byte.eqb b rbrace) eqn:Eb.
    + apply Byte.byte_dec_bl in Eb. subst b.
      destruct d as [|[|d]]; try (injection H as <-; reflexivity).
      eapply Hstep; eassumption.
    + destruct (Byte.eqb b quote); [eapply Hstep; eassumption|].
      destruct (Byte.eqb b lbrace); eapply Hstep; eassumption.
  - destruct (Byte.eqb b backslash); [eapply Hstep; eassumption|].
    destruct (Byte.eqb b quote); eapply Hstep; eassumption.
  - eapply Hstep; eassumption.
Qed.

(** The first opening brace: where it is, and none before it. *)
Lemma first_lbrace_spec (l : list byte) :
  forall s,
    first_lbrace l = Some s ->
    nth_error l s = Some lbrace /\ ~ In lbrace (firstn s l).
Proof.
  induction l as [|b r IH]; intros s H; [discriminate|].
  cbn [first_lbrace] in H.
  destruct (Byte.eqb b lbrace) eqn:Eb.
  - injection H as <-. apply Byte.byte_dec_bl in Eb. subst b.
    split; [reflexivity|]. cbn. tauto.
  - destruct (first_lbrace r) as [s'|]; [|discriminate].
    injection H as <-. destruct (IH s' eq_refl) as [H1 H2].
    split; [assumption|]. cbn [firstn]. intros [Hb | Hin].
    + subst b. vm_compute in Eb. discriminate.
    + contradiction.
Qed.

Lemma first_lbrace_none (l : list byte) :
  first_lbrace l = None -> ~ In lbrace l.
Proof.
  induction l as [|b r IH]; intros H; [cbn; tauto|].
  cbn [first_lbrace] in H.
  destruct (Byte.eqb b lbrace) eqn:Eb; [discriminate|].
  destruct (first_lbrace r); [discriminate|].
  intros [Hb | Hin].
  - subst b. vm_compute in Eb. discriminate.
  - now apply IH.
Qed.

Lemma nth_error_skipn {A} (l : list A) (s j : nat) :
  nth_error (skipn s l) j = nth_error l (s + j).
Proof.
  revert l. induction s as [|s IH]; intros [|a l]; cbn;
    try reflexivity; [destruct j; reflexivity | apply IH].
Qed.

Lemma nth_error_firstn_lt {A} (l : list A) (n j : nat) :
  (j < n)%nat -> nth_error (firstn n l) j = nth_error l j.
Proof.
  revert l j. induction n as [|n IH]; intros [|a l] [|j] H; cbn;
    try reflexivity; try lia. apply IH. lia.
Qed.

Lemma firstn_plus {A} (l : list A) (s n : nat) :
  firstn (s + n) l = firstn s l ++ firstn n (skipn s l).
Proof.
  revert l. induction s as [|s IH]; intros [|a l]; cbn;
    try reflexivity; [now rewrite firstn_nil | now rewrite IH].
Qed.

End TokenizerMore.

(** X9.  A token once found is final: when [JSONSplit] returns a token
    on a window, it returns the same advance and the same token on
    every extension of the window, at end of stream or not. *)
Theorem JSONSplit_token_is_final (data more : list byte) (atEOF atEOF' : bool)
  (adv : Z) (tok : list byte) (e : option error) :
  Tokenizer.JSONSplit data atEOF = Some (adv, Some tok, e) ->
  Tokenizer.JSONSplit (data ++ more) atEOF' = Some (adv, Some tok, None).
Proof.
  intros H.
  destruct (TokenizerMore.token_inv _ _ _ _ _ H)
    as (s & k & Es & Ek & Hlen & -> & -> & ->).
  rewrite TokenizerMore.JSONSplit_refines. unfold Tokenizer.object_split.
  rewrite (TokenizerMore.first_lbrace_app _ more _ Es).
  rewrite !skipn_app.
  replace (S s - List.length data)%nat with 0%nat by lia.
  replace (s - List.length data)%nat with 0%nat by lia.
  rewrite skipn_O.
  rewrite (TokenizerMore.depth_scan_app _ more _ _ _ Ek).
  rewrite firstn_app, length_skipn.
  replace (k + 2 - (List.length data - s))%nat with 0%nat by lia.
  rewrite firstn_O, app_nil_r. reflexivity.
Qed.

Lemma JSONSplit_token_is_final_witness :
  Tokenizer.JSONSplit Tokenizer.object_a false
  = Some (7, Some Tokenizer.object_a, None) /\
  Tokenizer.JSONSplit (Tokenizer.object_a ++ Tokenizer.cut_object) true
  = Some (7, Some Tokenizer.object_a, None).
Proof.
  split; [reflexivity|].
  apply (JSONSplit_token_is_final Tokenizer.object_a Tokenizer.cut_object
           false true 7 Tokenizer.object_a None).
  reflexivity.
Defined.

(** X10.  The shape of what [JSONSplit] returns with a token: no
    error; the advance is positive and within the window; the bytes
    consumed are noise that holds no opening brace followed by the
    token; the token begins with an opening brace, ends with a closing
    brace and is the only part of the consumed bytes that is
    returned. *)
Theorem JSONSplit_token_shape (data : list byte) (atEOF : bool) (adv : Z)
  (tok : list byte) (e : option error) :
  Tokenizer.JSONSplit data atEOF = Some (adv, Some tok, e) ->
  e = None /\
  0 < adv <= Go.len data /\
  2 <= Go.len tok <= adv /\
  (exists noise,
     firstn (Z.to_nat adv) data = noise ++ tok /\
     ~ In Tokenizer.lbrace noise) /\
  nth_error tok 0 = Some Tokenizer.lbrace /\
  nth_error tok (List.length tok - 1) = Some Tokenizer.rbrace.
Proof.
  intros H.
  destruct (TokenizerMore.token_inv _ _ _ _ _ H)
    as (s & k & Es & Ek & Hlen & -> & -> & ->).
  destruct (TokenizerMore.first_lbrace_spec _ _ Es) as [Hl Hnoise].
  pose proof (TokenizerMore.depth_scan_rbrace _ _ _ _ Ek) as Hr.
  rewrite TokenizerMore.nth_error_skipn in Hr.
  assert (Lt : List.length (firstn (k + 2) (skipn s data)) = (k + 2)%nat).
  { rewrite length_firstn, length_skipn. lia. }
  split; [reflexivity|].
  split; [unfold Go.len; lia|].
  split; [unfold Go.len; rewrite Lt; lia|].
  split; [|split].
  - exists (firstn s data). split; [|assumption].
    rewrite Nat2Z.id.
    replace (s + k + 2)%nat with (s + (k + 2))%nat by lia.
    apply TokenizerMore.firstn_plus.
  - rewrite TokenizerMore.nth_error_firstn_lt by lia.
    rewrite TokenizerMore.nth_error_skipn, Nat.add_0_r. assumption.
  - rewrite Lt.
    rewrite TokenizerMore.nth_error_firstn_lt by lia.
    rewrite TokenizerMore.nth_error_skipn.
    replace (s + (k + 2 - 1))%nat with (S s + k)%nat by lia.
    assumption.
Qed.

Lemma JSONSplit_token_shape_witness :
  Tokenizer.JSONSplit Tokenizer.noisy_stream false
  = Some (11, Some Tokenizer.object_a, None) /\
  0 < 11 <= Go.len Tokenizer.noisy_stream /\
  nth_error Tokenizer.object_a 0 = Some Tokenizer.lbrace.
Proof.
  split; [reflexivity|].
  pose proof (JSONSplit_token_shape Tokenizer.noisy_stream false 11
                Tokenizer.object_a None eq_refl) as (_ & H1 & _ & _ & H2 & _).
  split; assumption.
Defined.


(** ** More on the filter engine *)

Module FilterMore.

Import Filter.

Lemma is_set_setErr (s : Bufio.Scanner) (e : error) :
  Bufio.is_set (Bufio.err (Bufio.setErr s e)) = true.
Proof.
  unfold Bufio.setErr. destruct (Bufio.err s) as [[]|] eqn:E;
    cbn [Bufio.err Bufio.set_err Bufio.is_set]; try reflexivity;
    rewrite E; reflexivity.
Qed.

Lemma is_set_advance (s : Bufio.Scanner) (n : Z) :
  Bufio.is_set (Bufio.err s) = true ->
  Bufio.is_set (Bufio.err (fst (Bufio.advance s n))) = true.
Proof.
  intros H. unfold Bufio.advance.
  destruct (n <? 0); [apply is_set_setErr|].
  destruct (n >? _); [apply is_set_setErr | exact H].
Qed.

(** Once the scanner holds an error, [Scan] leaves the buffer alone
    and the scanner keeps an error. *)
Lemma scan_loop_after_error (fuel : nat) (s s' : Bufio.Scanner)
  (r r' : CircularBuffer.t) (ok : bool) :
  Bufio.is_set (Bufio.err s) = true ->
  Bufio.scan_loop fuel s r = Some (s', r', ok) ->
  r' = r /\ Bufio.is_set (Bufio.err s') = true.
Proof.
  intros He. destruct fuel as [|fuel]; [discriminate|].
  cbn [Bufio.scan_loop]. rewrite He, orb_true_r.
  destruct (slice _ _ _) as [window|]; [|discriminate]. cbn [bind].
  destruct (Bufio.split s window true) as [[[adv tok] e]|]; [|discriminate].
  cbn [bind].
  destruct e as [e|].
  - cbn [bind]. intros H. injection H as <- <- <-.
    split; [reflexivity | apply is_set_setErr].
  - pose proof (is_set_advance s adv He) as Ha.
    destruct (Bufio.advance s adv) as [s1 ok1]. cbn [fst] in Ha.
    destruct ok1; cbn [negb].
    + destruct tok as [tok|].
      * cbn [Bufio.set_token Bufio.err]. rewrite Ha. cbn [negb orb].
        destruct (adv >? 0).
        { cbn [bind]. intros H. injection H as <- <- <-.
          split; [reflexivity | exact Ha]. }
        { cbn [Bufio.set_empties Bufio.empties].
          destruct (_ >? Bufio.maxConsecutiveEmptyReads); [discriminate|].
          cbn [bind]. intros H. injection H as <- <- <-.
          split; [reflexivity | exact Ha]. }
      * cbn [bind Bufio.set_token Bufio.err]. rewrite Ha.
        intros H. injection H as <- <- <-.
        split; [reflexivity | exact Ha].
    + cbn [bind]. intros H. injection H as <- <- <-.
      split; [reflexivity | exact Ha].
Qed.

Lemma Scan_after_error (s s' : Bufio.Scanner) (r r' : CircularBuffer.t)
  (ok : bool) :
  Bufio.is_set (Bufio.err s) = true ->
  Bufio.Scan s r = Some (s', r', ok) ->
  r' = r /\ Bufio.is_set (Bufio.err s') = true.
Proof.
  intros He. unfold Bufio.Scan. destruct (Bufio.done s).
  - intros H. injection H as <- <- <-. split; [reflexivity | exact He].
  - apply scan_loop_after_error. exact He.
Qed.

(** What one iteration does to the sink and to the buffer. *)
Lemma iteration_next (w w' : world) :
  iteration w = Next w' ->
  exists ch sc cb ok,
    Chan.recv (CircularBuffer.C (cbuf (fp w))) = Chan.Received ch /\
    Bufio.Scan (scanner w) (CircularBuffer.set_C (cbuf (fp w)) ch)
    = Some (sc, cb, ok) /\
    scanner w' = sc /\ cbuf (fp w') = cb /\
    Interpreters (fp w') = Interpreters (fp w) /\
    sink w'
    = (if negb ok then
         match Bufio.Err sc with
         | Some e => sink w ++ [diagnostic e]
         | None => sink w
         end
       else sink w)
      ++ [snd (run_interpreters (Interpreters (fp w))
                 (bytes_or_nil (Bufio.Bytes sc)) [])].
Proof.
  unfold iteration.
  destruct (Chan.recv _) as [ch|] eqn:Er; [|discriminate].
  destruct (Bufio.Scan _ _) as [[[sc cb] ok]|] eqn:Es; [|discriminate].
  intros H. injection H as <-. exists ch, sc, cb, ok.
  cbn [scanner cbuf fp Interpreters sink].
  split; [reflexivity|]. split; [exact Es|]. split; [reflexivity|].
  split; [reflexivity|]. split; reflexivity.
Qed.

Lemma iteration_blocked (w w' : world) :
  iteration w = Blocked w' -> w' = w.
Proof.
  unfold iteration.
  destruct (Chan.recv _) as [ch|]; [|intros H; now injection H].
  destruct (Bufio.Scan _ _) as [[[sc cb] ok]|]; discriminate.
Qed.

Lemma iteration_after_error (w w' : world) :
  Bufio.is_set (Bufio.err (scanner w)) = true ->
  iteration w = Next w' -> same_bytes w w'.
Proof.
  intros He H.
  destruct (iteration_next w w' H) as (ch & sc & cb & ok & _ & Es & <- & Hcb & _).
  destruct (Scan_after_error _ _ _ _ _ He Es) as [-> He'].
  unfold same_bytes. rewrite Hcb. split; [exact He'|].
  repeat split.
Qed.

Lemma goroutine_after_error (n : nat) :
  forall w,
    Bufio.is_set (Bufio.err (scanner w)) = true ->
    match goroutine n w with
    | Next w' | Blocked w' => same_bytes w w'
    | _ => True
    end.
Proof.
  unfold goroutine. induction n as [|n IH]; intros w He.
  - cbn [for_ever]. unfold same_bytes. repeat split. exact He.
  - cbn [for_ever]. destruct (iteration w) as [w1|w1|w1|] eqn:E1.
    + pose proof (iteration_after_error w w1 He E1) as (He1 & Hc & Hl & Hk).
      specialize (IH w1 He1).
      destruct (for_ever n iteration w1) as [w2|w2|w2|]; try exact I;
        destruct IH as (He2 & Hc2 & Hl2 & Hk2);
        unfold same_bytes; (split; [exact He2|]);
        (split; [congruence|]); split; congruence.
    + exact I.
    + apply iteration_blocked in E1. subst w1.
      unfold same_bytes. repeat split. exact He.
    + exact I.
Qed.

(** The sink only grows: one or two records for each iteration. *)
Lemma goroutine_sink (n : nat) :
  forall w,
    match goroutine n w with
    | Next w' =>
        Interpreters (fp w') = Interpreters (fp w) /\
        exists added,
          sink w' = sink w ++ added /\
          (n <= List.length added <= 2 * n)%nat
    | Blocked w' =>
        Interpreters (fp w') = Interpreters (fp w) /\
        exists added,
          sink w' = sink w ++ added /\
          (List.length added <= 2 * n)%nat
    | _ => True
    end.
Proof.
  unfold goroutine. induction n as [|n IH]; intros w.
  - cbn [for_ever]. split; [reflexivity|]. exists [].
    rewrite app_nil_r. split; [reflexivity | cbn; lia].
  - cbn [for_ever]. destruct (iteration w) as [w1|w1|w1|] eqn:E1.
    + destruct (iteration_next w w1 E1)
        as (ch & sc & cb & ok & _ & _ & _ & _ & Ht & Hs).
      assert (exists one, sink w1 = sink w ++ one /\
                          (1 <= List.length one <= 2)%nat) as (one & H1 & L1).
      { rewrite Hs. destruct (negb ok); [destruct (Bufio.Err sc)|].
        - rewrite <- app_assoc. eexists. split; [reflexivity | cbn; lia].
        - eexists. split; [reflexivity | cbn; lia].
        - eexists. split; [reflexivity | cbn; lia]. }
      specialize (IH w1).
      destruct (for_ever n iteration w1) as [w2|w2|w2|]; try exact I;
        destruct IH as (Ht2 & added & H2 & L2);
        (split; [congruence|]); exists (one ++ added);
        rewrite H2, H1, <- app_assoc, length_app; split;
        try reflexivity; lia.
    + exact I.
    + apply iteration_blocked in E1. subst w1.
      split; [reflexivity|]. exists [].
      rewrite app_nil_r. split; [reflexivity | cbn; lia].
    + exact I.
Qed.

End FilterMore.



(** X13.  A scanner that holds an error never reads the buffer again:
    whatever the goroutine does from there, the bytes the buffer
    holds, their number and the capacity stay as they are, and the
    scanner still holds an error.  Bytes written to such a filter are
    never delivered. *)
Theorem scanner_error_is_sticky (n : nat) (w : world) :
  Bufio.is_set (Bufio.err (scanner w)) = true ->
  match goroutine n w with
  | Next w' | Blocked w' =>
      Bufio.is_set (Bufio.err (scanner w')) = true /\
      CircularBuffer.contents (cbuf (fp w'))
      = CircularBuffer.contents (cbuf (fp w)) /\
      CircularBuffer.Len (cbuf (fp w')) = CircularBuffer.Len (cbuf (fp w)) /\
      CircularBuffer.Capacity (cbuf (fp w'))
      = CircularBuffer.Capacity (cbuf (fp w))
  | _ => True
  end.
Proof.
  intros He. exact (FilterMore.goroutine_after_error n w He).
Qed.

Lemma scanner_error_is_sticky_witness :
  Bufio.is_set (Bufio.err (scanner failed_filter)) = true /\
  match goroutine 3 failed_filter with
  | Next w' | Blocked w' =>
      Bufio.is_set (Bufio.err (scanner w')) = true /\
      CircularBuffer.contents (cbuf (fp w'))
      = CircularBuffer.contents (cbuf (fp failed_filter)) /\
      CircularBuffer.Len (cbuf (fp w'))
      = CircularBuffer.Len (cbuf (fp failed_filter)) /\
      CircularBuffer.Capacity (cbuf (fp w'))
      = CircularBuffer.Capacity (cbuf (fp failed_filter))
  | _ => True
  end.
Proof.
  split; [reflexivity|].
  apply (scanner_error_is_sticky 3 failed_filter). reflexivity.
Defined.

(** X14.  The sink only grows, by one or two records for each
    iteration of the goroutine: after [n] iterations that ran through
    it holds what it held before followed by at least [n] and at most
    [2 * n] new records, and when the goroutine came to wait on the
    channel on the way, by at most [2 * n]; the interpreters are
    those the filter was made with. *)
Theorem sink_grows_with_every_wake_up (n : nat) (w : world) :
  match goroutine n w with
  | Next w' =>
      Interpreters (fp w') = Interpreters (fp w) /\
      exists added,
        sink w' = sink w ++ added /\
        (n <= List.length added <= 2 * n)%nat
  | Blocked w' =>
      Interpreters (fp w') = Interpreters (fp w) /\
      exists added,
        sink w' = sink w ++ added /\
        (List.length added <= 2 * n)%nat
  | _ => True
  end.
Proof.
  exact (FilterMore.goroutine_sink n w).
Qed.

(** ** The scanner over the buffer *)

Module ScannerFacts.

Import Go Tokenizer CircularBuffer Filter.

Lemma slice_tail {A} (s : list A) (a : Z) :
  0 <= a <= Go.len s ->
  slice s a (Go.len s) = Some (skipn (Z.to_nat a) s).
Proof.
  intros H. unfold slice, Go.len in *.
  replace ((0 <=? a) && (a <=? Z.of_nat (List.length s))
           && (Z.of_nat (List.length s) <=? Z.of_nat (List.length s)))
    with true by (symmetry; rewrite !andb_true_iff, !Z.leb_le; lia).
  f_equal. apply firstn_all2. rewrite length_skipn. lia.
Qed.

Lemma set_buf_same (s : Bufio.Scanner) : Bufio.set_buf s (Bufio.buf s) = s.
Proof. destruct s; reflexivity. Qed.

Lemma set_end_same (s : Bufio.Scanner) : Bufio.set_end s (Bufio.end_ s) = s.
Proof. destruct s; reflexivity. Qed.

Lemma read_input_empty (fuel : nat) :
  forall (loop : Z) (s : Bufio.Scanner) (c : t),
    wf c -> 0 < Go.len (buf c) -> closed c = false -> len c = 0 ->
    0 <= Bufio.end_ s <= Go.len (Bufio.buf s) ->
    Go.len (Bufio.buf s) <= max_int ->
    0 <= loop <= 100 -> (Z.to_nat (100 - loop) < fuel)%nat ->
    exists c',
      Bufio.read_input fuel s c loop
      = Some (Bufio.setErr s ErrNoProgress, c') /\
      wf c' /\ buf c' = buf c /\ closed c' = false /\ len c' = 0.
Proof.
  induction fuel as [|fuel IH]; intros loop s c Hwf Hcap Hopen Hlen He Hb Hl Hf;
    [lia|].
  cbn [Bufio.read_input].
  rewrite slice_tail by lia. cbn [bind].
  destruct (CircularBufferFacts.Read_ok c (skipn (Z.to_nat (Bufio.end_ s)) (Bufio.buf s)) Hwf Hcap)
    as (c' & Er & Hwf' & Hb' & Hc' & Hl' & _).
  { rewrite Hopen. apply andb_false_r. }
  rewrite Er. cbn [bind].
  rewrite Hlen. change (Z.to_nat 0) with 0%nat. rewrite Nat.min_0_r.
  cbn [firstn skipn app]. rewrite firstn_skipn, set_buf_same.
  pose proof (len_nonneg (skipn (Z.to_nat (Bufio.end_ s)) (Bufio.buf s))) as Hp.
  replace (Z.min _ 0) with 0 in * by lia.
  unfold max_int in Hb.
  unfold sub, add. rewrite !wrap_small by (unfold min_int, max_int; lia).
  rewrite Z.add_0_r, set_end_same.
  destruct (Z.ltb_spec (Go.len (Bufio.buf s) - Bufio.end_ s) 0); [lia|].
  cbn [Z.ltb Z.compare orb Z.gtb].
  destruct (Z.gtb_spec (loop + 1) Bufio.maxConsecutiveEmptyReads) as [Hg|Hg].
  - exists c'. split; [reflexivity|].
    split; [assumption|]. split; [assumption|]. split; [congruence|lia].
  - unfold Bufio.maxConsecutiveEmptyReads in Hg.
    destruct (IH (loop + 1) s c') as (c2 & E2 & Hwf2 & Hb2 & Hc2 & Hl2);
      try assumption; try lia; try congruence.
    exists c2. split; [exact E2|].
    split; [assumption|]. split; [congruence|]. split; assumption.
Qed.

Lemma JSONSplit_unfinished (p : list byte) :
  JSONSplit p false = Some (0, None, None) ->
  JSONSplit p true = Some (0, None, None) \/
  JSONSplit p true = Some (0, None, Some ErrIncompleteJSON).
Proof.
  unfold JSONSplit. cbn [andb].
  destruct (Go.len p =? 0); [left; reflexivity|].
  destruct (_ =? -1); [left; reflexivity|].
  destruct (matchBrace _ _ _) as [[e []]|]; [| right; reflexivity | discriminate].
  destruct (slice _ _ _); discriminate.
Qed.

Ltac scn :=
  cbn [Bufio.split Bufio.maxTokenSize Bufio.token Bufio.buf Bufio.start
       Bufio.end_ Bufio.err Bufio.empties Bufio.scanCalled Bufio.done
       Bufio.set_split Bufio.set_token Bufio.set_buf Bufio.set_start
       Bufio.set_end Bufio.set_err Bufio.set_empties Bufio.set_scanCalled
       Bufio.is_set bind negb andb orb].

(** [Scan] on a scanner that holds bytes with no complete object,
    over an open buffer that holds nothing. *)
Lemma scan_loop_unfinished (fuel : nat) (s : Bufio.Scanner) (c : t)
  (p : list byte) :
  wf c -> 0 < Go.len (buf c) -> closed c = false -> len c = 0 ->
  Bufio.err s = None -> Bufio.split s = JSONSplit ->
  Bufio.start s = 0 ->
  0 < Bufio.end_ s < Go.len (Bufio.buf s) ->
  Go.len (Bufio.buf s) <= max_int ->
  slice (Bufio.buf s) 0 (Bufio.end_ s) = Some p ->
  JSONSplit p false = Some (0, None, None) ->
  exists s' c',
    Bufio.scan_loop (S (S fuel)) s c = Some (s', c', false) /\
    Bufio.err s' = Some ErrNoProgress /\ Bufio.token s' = None /\
    wf c' /\ buf c' = buf c /\ closed c' = false /\ len c' = 0.
Proof.
  intros Hwf Hcap Hopen Hlen Herr Hsp Hst Hen Hb Hw Hj.
  destruct s as [sp mx tok sb st en er em called dn].
  cbn [Bufio.err Bufio.split Bufio.start Bufio.end_ Bufio.buf] in *.
  subst sp st er.
  remember (S fuel) as fuel1 eqn:Ef.
  unfold max_int in Hb.
  cbn [Bufio.scan_loop]. scn.
  destruct (Z.gtb_spec en 0); [|lia]. scn.
  rewrite Hw. scn. rewrite Hj. scn.
  unfold Bufio.advance. scn.
  change (0 <? 0) with false. cbn iota.
  unfold sub. rewrite Z.sub_0_r, wrap_small by (unfold min_int, max_int; lia).
  destruct (Z.gtb_spec 0 en); [lia|].
  change (add 0 0) with 0. scn.
  unfold Bufio.make_room. scn.
  change (0 >? 0) with false. scn.
  destruct (Z.eqb_spec en (Go.len sb)); [lia|]. scn.
  match goal with
  | |- context [Bufio.read_input 102 ?s1 c 0] =>
      destruct (read_input_empty 102 0 s1 c Hwf Hcap Hopen Hlen)
        as (c' & Er & Hwf' & Hb' & Hc' & Hl')
  end.
  { scn. lia. }
  { scn. unfold max_int. lia. }
  { lia. }
  { change (Z.to_nat (100 - 0)) with 100%nat. lia. }
  rewrite Er. scn. unfold Bufio.setErr. scn. subst fuel1.
  cbn [Bufio.scan_loop]. scn. rewrite orb_true_r, Hw. scn.
  destruct (JSONSplit_unfinished p Hj) as [Ej|Ej]; rewrite Ej; scn.
  - unfold Bufio.advance. scn.
    change (0 <? 0) with false. cbn iota.
    unfold sub. rewrite Z.sub_0_r, wrap_small by (unfold min_int, max_int; lia).
    destruct (Z.gtb_spec 0 en); [lia|].
    change (add 0 0) with 0. scn.
    eexists. exists c'. split; [reflexivity|]. scn.
    split; [reflexivity|]. split; [reflexivity|].
    split; [assumption|]. split; [assumption|]. split; assumption.
  - unfold Bufio.setErr. scn.
    eexists. exists c'. split; [reflexivity|]. scn.
    split; [reflexivity|]. split; [reflexivity|].
    split; [assumption|]. split; [assumption|]. split; assumption.
Qed.


Lemma copy_nil {A} (s : list A) : copy s [] = Some (s, 0).
Proof.
  unfold copy, copy_into. pose proof (len_nonneg s).
  rewrite slice_tail by lia. cbn [Z.to_nat skipn].
  change (Go.len (@nil A)) with 0.
  replace (Z.min (Go.len s) 0) with 0 by lia.
  reflexivity.
Qed.

(** What [make_room] does for a scanner that has no buffer yet: it
    allocates the first one. *)
Lemma make_room_fresh (s : Bufio.Scanner) :
  Bufio.buf s = [] -> Bufio.start s = 0 -> Bufio.end_ s = 0 ->
  Bufio.maxTokenSize s = Bufio.MaxScanTokenSize ->
  Bufio.make_room s
  = Some (inr (Bufio.set_start
                 (Bufio.set_end
                    (Bufio.set_buf s
                       (repeat x00 (Z.to_nat Bufio.startBufSize))) 0) 0)).
Proof.
  intros Hb Hs He Hm. unfold Bufio.make_room.
  rewrite Hs. change (0 >? 0) with false. cbn [andb bind].
  rewrite Hb, He, Hm, Hs.
  change (Go.len (@nil byte)) with 0.
  change (0 =? 0) with true. cbn iota.
  change ((0 >=? Bufio.MaxScanTokenSize) || (0 >? max_int ÷ 2)) with false.
  cbn iota.
  change (if (if mul 0 2 =? 0 then Bufio.startBufSize else mul 0 2) >?
             Bufio.MaxScanTokenSize
          then Bufio.MaxScanTokenSize
          else if mul 0 2 =? 0 then Bufio.startBufSize else mul 0 2)
    with Bufio.startBufSize.
  unfold make_bytes. change (Bufio.startBufSize <? 0) with false. cbn iota.
  cbn [bind]. rewrite FilterFacts.slice_empty. cbn [bind].
  rewrite copy_nil. cbn [bind].
  change (sub 0 0) with 0. reflexivity.
Qed.

(** A read that finds [p] in the buffer, all of which fits behind the
    scanner's pending bytes. *)
Lemma read_input_some (fuel : nat) (loop : Z) (s : Bufio.Scanner) (c : t)
  (p : list byte) :
  wf c -> 0 < Go.len (buf c) -> closed c = false ->
  contents c = p -> len c = Go.len p ->
  Bufio.end_ s = 0 ->
  0 < Go.len p <= Go.len (Bufio.buf s) -> Go.len (Bufio.buf s) <= max_int ->
  exists c',
    Bufio.read_input (S fuel) s c loop
    = Some (Bufio.set_empties
              (Bufio.set_end
                 (Bufio.set_buf s
                    (p ++ skipn (List.length p) (Bufio.buf s)))
                 (Go.len p)) 0, c') /\
    wf c' /\ buf c' = buf c /\ closed c' = false /\ len c' = 0.
Proof.
  intros Hwf Hcap Hopen Hcont Hlen He Hp Hb. unfold max_int in Hb.
  cbn [Bufio.read_input]. rewrite He.
  rewrite slice_tail by lia. cbn [Z.to_nat skipn firstn app bind].
  destruct (CircularBufferFacts.Read_ok c (Bufio.buf s) Hwf Hcap)
    as (c' & Er & Hwf' & Hb' & Hc' & Hl' & _).
  { rewrite Hopen. apply andb_false_r. }
  rewrite Er. cbn [bind].
  assert (Hmin : Nat.min (List.length (Bufio.buf s)) (Z.to_nat (len c))
                 = List.length p) by (unfold Go.len in *; lia).
  rewrite Hmin, Hcont, firstn_all.
  replace (Z.min (Go.len (Bufio.buf s)) (len c)) with (Go.len p) in * by lia.
  cbn [Bufio.buf Bufio.set_buf Bufio.end_].
  assert (Hn : Go.len (p ++ skipn (List.length p) (Bufio.buf s))
               = Go.len (Bufio.buf s)).
  { unfold Go.len in *. rewrite length_app, length_skipn. lia. }
  rewrite Hn, He.
  unfold sub, add. rewrite Z.sub_0_r, Z.add_0_l.
  rewrite !wrap_small by (unfold min_int, max_int; lia).
  destruct (Z.ltb_spec (Go.len p) 0); [lia|].
  destruct (Z.ltb_spec (Go.len (Bufio.buf s)) (Go.len p)); [lia|].
  cbn [orb].
  destruct (Z.gtb_spec (Go.len p) 0); [|lia].
  exists c'. split; [reflexivity|].
  split; [assumption|]. split; [assumption|].
  split; [rewrite Hc'; exact Hopen|].
  rewrite Hl', Hlen. apply Z.sub_diag.
Qed.

Lemma scan_loop_S (fuel : nat) (s : Bufio.Scanner) (r : t) :
  Bufio.scan_loop (S fuel) s r
  = (st <- (if (Bufio.end_ s >? Bufio.start s) || Bufio.is_set (Bufio.err s)
            then
              window <- slice (Bufio.buf s) (Bufio.start s) (Bufio.end_ s) ;;
              '(adv, tok, e) <- Bufio.split s window
                                  (Bufio.is_set (Bufio.err s)) ;;
              match e with
              | Some e => Some (inl (Bufio.setErr s e, false))
              | None =>
                  let '(s, ok) := Bufio.advance s adv in
                  if negb ok then Some (inl (s, false))
                  else
                    let s := Bufio.set_token s tok in
                    match tok with
                    | None => Some (inr s)
                    | Some _ =>
                        if negb (Bufio.is_set (Bufio.err s)) || (adv >? 0)
                        then Some (inl (Bufio.set_empties s 0, true))
                        else
                          let s := Bufio.set_empties s
                                     (add (Bufio.empties s) 1) in
                          if Bufio.empties s >? Bufio.maxConsecutiveEmptyReads
                          then None
                          else Some (inl (s, true))
                    end
              end
            else Some (inr s)) ;;
     match st with
     | inl (s, ok) => Some (s, r, ok)
     | inr s =>
         if Bufio.is_set (Bufio.err s) then
           Some (Bufio.set_end (Bufio.set_start s 0) 0, r, false)
         else
           room <- Bufio.make_room s ;;
           match room with
           | inl s => Some (s, r, false)
           | inr s =>
               '(s, r) <- Bufio.read_input 102 s r 0 ;;
               Bufio.scan_loop fuel s r
           end
     end).
Proof. reflexivity. Qed.

(** The first iteration of [Scan] on a scanner that has read nothing
    yet, over an open buffer that holds [p]: the scanner allocates
    its buffer and takes all of [p]. *)
Lemma scan_loop_first_read (fuel : nat) (s : Bufio.Scanner) (c : t)
  (p : list byte) :
  wf c -> 0 < Go.len (buf c) -> closed c = false ->
  contents c = p -> len c = Go.len p ->
  0 < Go.len p < Bufio.startBufSize ->
  Bufio.err s = None -> Bufio.buf s = [] ->
  Bufio.start s = 0 -> Bufio.end_ s = 0 ->
  Bufio.maxTokenSize s = Bufio.MaxScanTokenSize ->
  exists s' c',
    Bufio.scan_loop (S fuel) s c = Bufio.scan_loop fuel s' c' /\
    Bufio.err s' = None /\ Bufio.split s' = Bufio.split s /\
    Bufio.start s' = 0 /\ Bufio.end_ s' = Go.len p /\
    Go.len (Bufio.buf s') = Bufio.startBufSize /\
    slice (Bufio.buf s') 0 (Go.len p) = Some p /\
    wf c' /\ buf c' = buf c /\ closed c' = false /\ len c' = 0.
Proof.
  intros Hwf Hcap Hopen Hcont Hlen Hp Herr Hbuf Hst Hen Hmx.
  rewrite scan_loop_S, Hen, Hst, Herr.
  change ((0 >? 0) || Bufio.is_set (@None error)) with false.
  cbn iota. cbn [bind]. rewrite Herr. cbn [Bufio.is_set].
  rewrite (make_room_fresh s Hbuf Hst Hen Hmx). cbn [bind].
  remember (repeat x00 (Z.to_nat Bufio.startBufSize)) as zeros eqn:Ez.
  assert (Hz : Go.len zeros = Bufio.startBufSize).
  { subst zeros. unfold Go.len. rewrite repeat_length. reflexivity. }
  unfold Bufio.startBufSize in *.
  remember (Bufio.set_start (Bufio.set_end (Bufio.set_buf s zeros) 0) 0)
    as s1 eqn:Es1.
  assert (Hb1 : Bufio.buf s1 = zeros) by (subst s1; reflexivity).
  assert (He1 : Bufio.end_ s1 = 0) by (subst s1; reflexivity).
  assert (Hs1 : Bufio.start s1 = 0) by (subst s1; reflexivity).
  assert (Hr1 : Bufio.err s1 = None) by (subst s1; exact Herr).
  assert (Hp1 : Bufio.split s1 = Bufio.split s) by (subst s1; reflexivity).
  change 102%nat with (S 101).
  destruct (read_input_some 101 0 s1 c p Hwf Hcap Hopen Hcont Hlen He1)
    as (c' & Er & Hwf' & Hb' & Hc' & Hl').
  { rewrite Hb1, Hz. lia. }
  { rewrite Hb1, Hz. unfold max_int. lia. }
  rewrite Er. cbn [bind].
  eexists. exists c'. split; [reflexivity|].
  cbn [Bufio.err Bufio.split Bufio.start Bufio.end_ Bufio.buf
       Bufio.set_empties Bufio.set_end Bufio.set_buf].
  rewrite Hb1.
  assert (Hn : Go.len (p ++ skipn (List.length p) zeros) = 4096).
  { unfold Go.len in *. rewrite length_app, length_skipn. lia. }
  split; [exact Hr1|]. split; [exact Hp1|]. split; [exact Hs1|].
  split; [reflexivity|]. split; [exact Hn|].
  split.
  { unfold slice. rewrite Hn.
    destruct (Z.leb_spec 0 (Go.len p)); [|lia].
    destruct (Z.leb_spec (Go.len p) 4096); [|lia].
    cbn [Z.leb Z.compare andb]. rewrite Z.sub_0_r. cbn [Z.to_nat skipn].
    unfold Go.len. rewrite Nat2Z.id, firstn_app, firstn_all, Nat.sub_diag.
    cbn [firstn]. rewrite app_nil_r. reflexivity. }
  split; [assumption|]. split; [assumption|]. split; assumption.
Qed.

(** One wake-up of a goroutine that has read nothing yet, over an
    open buffer that holds [p], in which no object is complete. *)
Lemma iteration_unfinished (w : world) (p : list byte) :
  wf (cbuf (fp w)) -> 0 < Go.len (buf (cbuf (fp w))) ->
  closed (cbuf (fp w)) = false ->
  C (cbuf (fp w)) = {| Chan.pending := true; Chan.closed := false |} ->
  contents (cbuf (fp w)) = p -> len (cbuf (fp w)) = Go.len p ->
  0 < Go.len p < Bufio.startBufSize ->
  Bufio.err (scanner w) = None -> Bufio.buf (scanner w) = [] ->
  Bufio.start (scanner w) = 0 -> Bufio.end_ (scanner w) = 0 ->
  Bufio.maxTokenSize (scanner w) = Bufio.MaxScanTokenSize ->
  Bufio.split (scanner w) = JSONSplit -> Bufio.done (scanner w) = false ->
  JSONSplit p false = Some (0, None, None) ->
  exists w',
    iteration w = Next w' /\
    Bufio.err (scanner w') = Some ErrNoProgress /\
    Bufio.token (scanner w') = None /\
    sink w'
    = sink w ++ [diagnostic ErrNoProgress;
                 snd (run_interpreters (Interpreters (fp w)) [] [])] /\
    Interpreters (fp w') = Interpreters (fp w) /\
    buf (cbuf (fp w')) = buf (cbuf (fp w)) /\
    closed (cbuf (fp w')) = false /\ len (cbuf (fp w')) = 0.
Proof.
  intros Hwf Hcap Hopen HC Hcont Hlen Hp Herr Hbuf Hst Hen Hmx Hsp Hdone Hj.
  unfold iteration. rewrite HC. cbn [Chan.recv Chan.pending Chan.closed].
  remember (set_C (cbuf (fp w))
              {| Chan.pending := false; Chan.closed := false |}) as c eqn:Ec.
  assert (Hwf1 : wf c).
  { subst c. destruct Hwf as (H1 & H2 & H3 & H4 & _).
    unfold wf. cbn [set_C buf len index closed C Chan.closed].
    split; [exact H1|]. split; [exact H2|]. split; [exact H3|].
    split; [exact H4|]. symmetry. exact Hopen. }
  assert (Hb1 : buf c = buf (cbuf (fp w))) by (subst c; reflexivity).
  assert (Hcap1 : 0 < Go.len (buf c)) by (rewrite Hb1; exact Hcap).
  assert (Hopen1 : closed c = false) by (subst c; exact Hopen).
  assert (Hcont1 : contents c = p) by (subst c; exact Hcont).
  assert (Hlen1 : len c = Go.len p) by (subst c; exact Hlen).
  unfold Bufio.Scan. rewrite Hdone.
  change (3 + Z.to_nat (len c))%nat with (S (S (S (Z.to_nat (len c))))).
  remember (Z.to_nat (len c)) as k eqn:Ek.
  destruct (scan_loop_first_read (S (S k))
              (Bufio.set_scanCalled (scanner w) true) c p
              Hwf1 Hcap1 Hopen1 Hcont1 Hlen1 Hp Herr Hbuf Hst Hen Hmx)
    as (s1 & c1 & E1 & Hr1 & Hs1 & Ht1 & He1 & Hz1 & Hw1 & Hwf2 & Hb2 & Hc2
        & Hl2).
  rewrite E1. clear E1.
  destruct (scan_loop_unfinished k s1 c1 p) as
    (s2 & c2 & E2 & Hr2 & Ht2 & Hwf3 & Hb3 & Hc3 & Hl3);
    try assumption.
  { rewrite Hb2. exact Hcap1. }
  { rewrite Hs1. exact Hsp. }
  { rewrite He1, Hz1. exact Hp. }
  { rewrite Hz1. unfold Bufio.startBufSize, max_int. lia. }
  { rewrite He1. exact Hw1. }
  rewrite E2. cbn [negb].
  unfold Bufio.Err, Bufio.Bytes. rewrite Hr2, Ht2.
  cbn [bytes_or_nil].
  eexists. split; [reflexivity|].
  cbn [scanner sink fp cbuf Interpreters].
  split; [exact Hr2|]. split; [exact Ht2|].
  split; [rewrite <- app_assoc; reflexivity|].
  split; [reflexivity|].
  split; [rewrite Hb3, Hb2; exact Hb1|].
  split; assumption.
Qed.

Lemma slice_suffix {A} (b p : list A) (a n : Z) :
  slice b 0 n = Some p -> 0 <= a <= n ->
  slice b a n = Some (skipn (Z.to_nat a) p).
Proof.
  unfold slice. intros H Ha.
  destruct (Z.leb_spec 0 0); [|lia].
  destruct (Z.leb_spec 0 n); [|lia].
  destruct (Z.leb_spec n (Go.len b)); [|discriminate].
  destruct (Z.leb_spec 0 a); [|lia].
  destruct (Z.leb_spec a n); [|lia].
  cbn [andb] in *. injection H as <-.
  rewrite Z.sub_0_r. cbn [Z.to_nat skipn].
  rewrite skipn_firstn_comm. do 2 f_equal. lia.
Qed.

(** [Scan] on a scanner whose pending bytes hold a complete object:
    it returns the object and keeps the bytes after it. *)
Lemma scan_loop_token (fuel : nat) (s : Bufio.Scanner) (c : t)
  (p tok : list byte) (adv : Z) (e : option error) :
  Bufio.err s = None -> Bufio.split s = JSONSplit ->
  Bufio.start s = 0 ->
  0 < Bufio.end_ s <= max_int ->
  slice (Bufio.buf s) 0 (Bufio.end_ s) = Some p ->
  JSONSplit p false = Some (adv, Some tok, e) ->
  Bufio.scan_loop (S fuel) s c
  = Some (Bufio.set_empties
            (Bufio.set_token (Bufio.set_start s adv) (Some tok)) 0,
          c, true) /\
  0 < adv <= Bufio.end_ s.
Proof.
  intros Herr Hsp Hst Hen Hw Hj.
  assert (Hlp : Go.len p = Bufio.end_ s).
  { revert Hw. unfold slice.
    destruct (Z.leb_spec 0 0); [|lia].
    destruct (Z.leb_spec 0 (Bufio.end_ s)); [|lia].
    destruct (Z.leb_spec (Bufio.end_ s) (Go.len (Bufio.buf s)));
      [|discriminate].
    cbn [andb]. intros H2. injection H2 as <-.
    rewrite Z.sub_0_r. cbn [Z.to_nat skipn].
    unfold Go.len in *. rewrite length_firstn. lia. }
  destruct (TokenizerMore.token_inv _ _ _ _ _ Hj)
    as (i & k & _ & _ & Hik & Ea & _ & ->).
  assert (Hadv : 0 < adv <= Bufio.end_ s) by (unfold Go.len in Hlp; lia).
  split; [|exact Hadv].
  unfold max_int in Hen.
  rewrite scan_loop_S, Hst, Herr.
  destruct (Z.gtb_spec (Bufio.end_ s) 0); [|lia].
  cbn [orb Bufio.is_set]. rewrite Hw. cbn [bind]. rewrite Hsp, Hj.
  cbn [bind]. unfold Bufio.advance. rewrite Hst.
  unfold sub, add. rewrite Z.sub_0_r, Z.add_0_l.
  rewrite !wrap_small by (unfold min_int, max_int; lia).
  destruct (Z.ltb_spec adv 0); [lia|].
  destruct (Z.gtb_spec adv (Bufio.end_ s)); [lia|].
  cbn [negb Bufio.set_token Bufio.set_start Bufio.err]. rewrite Herr.
  cbn [Bufio.is_set negb orb bind]. reflexivity.
Qed.

(** One wake-up of a goroutine that has read nothing yet, over an
    open buffer that holds [p], in which an object is complete. *)
Lemma iteration_token (w : world) (p tok : list byte) (adv : Z)
  (e : option error) :
  wf (cbuf (fp w)) -> 0 < Go.len (buf (cbuf (fp w))) ->
  closed (cbuf (fp w)) = false ->
  C (cbuf (fp w)) = {| Chan.pending := true; Chan.closed := false |} ->
  contents (cbuf (fp w)) = p -> len (cbuf (fp w)) = Go.len p ->
  0 < Go.len p < Bufio.startBufSize ->
  Bufio.err (scanner w) = None -> Bufio.buf (scanner w) = [] ->
  Bufio.start (scanner w) = 0 -> Bufio.end_ (scanner w) = 0 ->
  Bufio.maxTokenSize (scanner w) = Bufio.MaxScanTokenSize ->
  Bufio.split (scanner w) = JSONSplit -> Bufio.done (scanner w) = false ->
  JSONSplit p false = Some (adv, Some tok, e) ->
  exists w',
    iteration w = Next w' /\
    Bufio.err (scanner w') = None /\
    Bufio.token (scanner w') = Some tok /\
    pending_window w' = Some (skipn (Z.to_nat adv) p) /\
    sink w'
    = sink w ++ [snd (run_interpreters (Interpreters (fp w)) tok [])] /\
    Interpreters (fp w') = Interpreters (fp w) /\
    buf (cbuf (fp w')) = buf (cbuf (fp w)) /\
    closed (cbuf (fp w')) = false /\ len (cbuf (fp w')) = 0.
Proof.
  intros Hwf Hcap Hopen HC Hcont Hlen Hp Herr Hbuf Hst Hen Hmx Hsp Hdone Hj.
  unfold iteration. rewrite HC. cbn [Chan.recv Chan.pending Chan.closed].
  remember (set_C (cbuf (fp w))
              {| Chan.pending := false; Chan.closed := false |}) as c eqn:Ec.
  assert (Hwf1 : wf c).
  { subst c. destruct Hwf as (H1 & H2 & H3 & H4 & _).
    unfold wf. cbn [set_C buf len index closed C Chan.closed].
    split; [exact H1|]. split; [exact H2|]. split; [exact H3|].
    split; [exact H4|]. symmetry. exact Hopen. }
  assert (Hb1 : buf c = buf (cbuf (fp w))) by (subst c; reflexivity).
  assert (Hcap1 : 0 < Go.len (buf c)) by (rewrite Hb1; exact Hcap).
  assert (Hopen1 : closed c = false) by (subst c; exact Hopen).
  assert (Hcont1 : contents c = p) by (subst c; exact Hcont).
  assert (Hlen1 : len c = Go.len p) by (subst c; exact Hlen).
  unfold Bufio.Scan. rewrite Hdone.
  change (3 + Z.to_nat (len c))%nat with (S (S (S (Z.to_nat (len c))))).
  remember (Z.to_nat (len c)) as k eqn:Ek.
  destruct (scan_loop_first_read (S (S k))
              (Bufio.set_scanCalled (scanner w) true) c p
              Hwf1 Hcap1 Hopen1 Hcont1 Hlen1 Hp Herr Hbuf Hst Hen Hmx)
    as (s1 & c1 & E1 & Hr1 & Hs1 & Ht1 & He1 & Hz1 & Hw1 & Hwf2 & Hb2 & Hc2
        & Hl2).
  rewrite E1. clear E1.
  destruct (scan_loop_token (S k) s1 c1 p tok adv e Hr1) as [E2 Hadv];
    try assumption.
  { rewrite Hs1. exact Hsp. }
  { rewrite He1. unfold Bufio.startBufSize, max_int in *. lia. }
  { rewrite He1. exact Hw1. }
  rewrite E2. cbn [negb].
  unfold Bufio.Bytes, pending_window.
  cbn [Bufio.token Bufio.set_empties Bufio.set_token bytes_or_nil].
  eexists. split; [reflexivity|].
  cbn [scanner sink fp cbuf Interpreters Bufio.err Bufio.token
       Bufio.set_empties Bufio.set_token Bufio.set_start Bufio.buf
       Bufio.start Bufio.end_].
  split; [exact Hr1|]. split; [reflexivity|].
  split; [rewrite He1 in *; apply slice_suffix; [exact Hw1 | lia]|].
  split; [reflexivity|]. split; [reflexivity|].
  split; [rewrite Hb2; exact Hb1|].
  split; assumption.
Qed.

End ScannerFacts.

Import Go Tokenizer CircularBuffer Filter.

(** X15.  A write that stops inside an object silences the filter.
    When a new JSON filter is written bytes, at most its buffer's
    4000, in which no object is complete, and its goroutine wakes up
    before more bytes arrive, the scanner takes the bytes, reads the
    empty buffer a hundred times more and fails with
    [io.ErrNoProgress]: the sink receives the diagnostic and a record
    made of the empty token, and the buffer is left empty. *)
Theorem unfinished_write_fails_the_scanner (terps : list Interpreter)
  (p : list byte) :
  0 < Go.len p <= 4000 ->
  JSONSplit p false = Some (0, None, None) ->
  exists w0 w1 w2,
    NewJSONFilter terps = Some w0 /\
    Write CircularBuffer.FailFast.Write w0 p = Some (w1, Go.len p, None) /\
    Write CircularBuffer.AutoGrow.Write w0 p = Some (w1, Go.len p, None) /\
    iteration w1 = Next w2 /\
    Bufio.Err (scanner w2) = Some ErrNoProgress /\
    Bufio.Bytes (scanner w2) = None /\
    sink w2
    = [diagnostic ErrNoProgress; snd (run_interpreters terps [] [])] /\
    CircularBuffer.Len (cbuf (fp w2)) = 0.
Proof.
  intros Hp Hj.
  destruct (CircularBufferFacts.NewCircularBuffer_ok 4000)
    as (c0 & En & Hwf0 & Hcap0 & Hl0 & Hi0 & Hc0 & Hcont0);
    [lia | unfold max_int; lia |].
  unfold Capacity in Hcap0.
  destruct (CircularBufferFacts.write_at_tail_ok c0 p Hwf0)
    as (c1 & Ew & Hwf1 & Hcap1 & _ & Hc1 & Hl1 & Hcont1);
    [lia | exact Hc0 | lia |].
  pose proof Hwf0 as (_ & _ & _ & _ & Hs0).
  assert (Esub : sub (Go.len (buf c0)) (len c0) = 4000).
  { rewrite Hcap0, Hl0. reflexivity. }
  assert (HC1 : C c1 = {| Chan.pending := true; Chan.closed := false |}).
  { rewrite (BufferMore.write_at_tail_chan c0 c1 p _ _ Hs0 Ew).
    rewrite Hc0, Hl0. unfold add.
    rewrite Z.add_0_l, wrap_small by (unfold min_int, max_int; lia).
    destruct (Z.eqb_spec (Go.len p) 0); [lia | reflexivity]. }
  unfold NewJSONFilter, NewFilter. rewrite En. cbn [bind].
  change (Bufio.Split Bufio.NewScanner JSONSplit)
    with (Some (Bufio.set_split Bufio.NewScanner JSONSplit)).
  cbn [bind].
  eexists. exists {| fp := {| Interpreters := terps; cbuf := c1 |};
            scanner := Bufio.set_split Bufio.NewScanner JSONSplit;
            sink := [] |}.
  destruct (ScannerFacts.iteration_unfinished
              {| fp := {| Interpreters := terps; cbuf := c1 |};
                 scanner := Bufio.set_split Bufio.NewScanner JSONSplit;
                 sink := [] |} p)
    as (w2 & Ei & Hr & Ht & Hk & _ & _ & _ & Hl2);
    cbn [fp cbuf scanner sink Interpreters];
    try reflexivity; try assumption.
  { rewrite Hcap1, Hcap0. lia. }
  { rewrite Hcont1, Hcont0. reflexivity. }
  { rewrite Hl1, Hl0. reflexivity. }
  { unfold Bufio.startBufSize. lia. }
  exists w2. split; [reflexivity|].
  unfold Write. cbn [fp cbuf scanner sink Interpreters].
  unfold FailFast.Write, AutoGrow.Write. rewrite Hc0, Esub.
  destruct (Z.gtb_spec (Go.len p) 4000); [lia|]. cbn [bind].
  rewrite Ew. cbn [bind].
  split; [reflexivity|]. split; [reflexivity|]. split; [exact Ei|].
  unfold Bufio.Err, Bufio.Bytes, Len. rewrite Hr.
  split; [reflexivity|]. split; [exact Ht|]. split; [exact Hk | exact Hl2].
Qed.

Lemma unfinished_write_fails_the_scanner_witness :
  0 < Go.len cut_object <= 4000 /\
  JSONSplit cut_object false = Some (0, None, None) /\
  exists w0 w1 w2,
    NewJSONFilter [capture] = Some w0 /\
    Write CircularBuffer.FailFast.Write w0 cut_object
    = Some (w1, Go.len cut_object, None) /\
    Write CircularBuffer.AutoGrow.Write w0 cut_object
    = Some (w1, Go.len cut_object, None) /\
    iteration w1 = Next w2 /\
    Bufio.Err (scanner w2) = Some ErrNoProgress /\
    Bufio.Bytes (scanner w2) = None /\
    sink w2
    = [diagnostic ErrNoProgress; snd (run_interpreters [capture] [] [])] /\
    CircularBuffer.Len (cbuf (fp w2)) = 0.
Proof.
  split; [vm_compute; split; [reflexivity | discriminate]|].
  split; [reflexivity|].
  apply (unfinished_write_fails_the_scanner [capture] cut_object);
    [vm_compute; split; [reflexivity | discriminate] | reflexivity].
Defined.

(** X16.  A write that holds a complete object delivers it.  When a
    new JSON filter is written bytes, at most its buffer's 4000, of
    which the tokenizer makes an object, the goroutine's wake-up
    takes the bytes out of the buffer and calls the sink exactly
    once, with what the interpreters in their order make of the
    object and of a fresh field set; no error is recorded, and the
    bytes after the object stay pending in the scanner. *)
Theorem complete_object_is_delivered (terps : list Interpreter)
  (p tok : list byte) (adv : Z) (e : option error) :
  0 < Go.len p <= 4000 ->
  JSONSplit p false = Some (adv, Some tok, e) ->
  exists w0 w1 w2,
    NewJSONFilter terps = Some w0 /\
    Write CircularBuffer.FailFast.Write w0 p = Some (w1, Go.len p, None) /\
    Write CircularBuffer.AutoGrow.Write w0 p = Some (w1, Go.len p, None) /\
    iteration w1 = Next w2 /\
    sink w2 = [snd (run_interpreters terps tok [])] /\
    Bufio.Err (scanner w2) = None /\
    Bufio.Bytes (scanner w2) = Some tok /\
    pending_window w2 = Some (skipn (Z.to_nat adv) p) /\
    CircularBuffer.Len (cbuf (fp w2)) = 0.
Proof.
  intros Hp Hj.
  destruct (CircularBufferFacts.NewCircularBuffer_ok 4000)
    as (c0 & En & Hwf0 & Hcap0 & Hl0 & Hi0 & Hc0 & Hcont0);
    [lia | unfold max_int; lia |].
  unfold Capacity in Hcap0.
  destruct (CircularBufferFacts.write_at_tail_ok c0 p Hwf0)
    as (c1 & Ew & Hwf1 & Hcap1 & _ & Hc1 & Hl1 & Hcont1);
    [lia | exact Hc0 | lia |].
  pose proof Hwf0 as (_ & _ & _ & _ & Hs0).
  assert (Esub : sub (Go.len (buf c0)) (len c0) = 4000).
  { rewrite Hcap0, Hl0. reflexivity. }
  assert (HC1 : C c1 = {| Chan.pending := true; Chan.closed := false |}).
  { rewrite (BufferMore.write_at_tail_chan c0 c1 p _ _ Hs0 Ew).
    rewrite Hc0, Hl0. unfold add.
    rewrite Z.add_0_l, wrap_small by (unfold min_int, max_int; lia).
    destruct (Z.eqb_spec (Go.len p) 0); [lia | reflexivity]. }
  unfold NewJSONFilter, NewFilter. rewrite En. cbn [bind].
  change (Bufio.Split Bufio.NewScanner JSONSplit)
    with (Some (Bufio.set_split Bufio.NewScanner JSONSplit)).
  cbn [bind].
  eexists. exists {| fp := {| Interpreters := terps; cbuf := c1 |};
            scanner := Bufio.set_split Bufio.NewScanner JSONSplit;
            sink := [] |}.
  destruct (ScannerFacts.iteration_token
              {| fp := {| Interpreters := terps; cbuf := c1 |};
                 scanner := Bufio.set_split Bufio.NewScanner JSONSplit;
                 sink := [] |} p tok adv e)
    as (w2 & Ei & Hr & Ht & Hpw & Hk & _ & _ & _ & Hl2);
    cbn [fp cbuf scanner sink Interpreters];
    try reflexivity; try assumption.
  { rewrite Hcap1, Hcap0. lia. }
  { rewrite Hcont1, Hcont0. reflexivity. }
  { rewrite Hl1, Hl0. reflexivity. }
  { unfold Bufio.startBufSize. lia. }
  exists w2. split; [reflexivity|].
  unfold Write. cbn [fp cbuf scanner sink Interpreters].
  unfold FailFast.Write, AutoGrow.Write. rewrite Hc0, Esub.
  destruct (Z.gtb_spec (Go.len p) 4000); [lia|]. cbn [bind].
  rewrite Ew. cbn [bind].
  split; [reflexivity|]. split; [reflexivity|]. split; [exact Ei|].
  split; [exact Hk|].
  unfold Bufio.Err, Bufio.Bytes, Len. rewrite Hr.
  split; [reflexivity|]. split; [exact Ht|]. split; [exact Hpw | exact Hl2].
Qed.

Lemma complete_object_is_delivered_witness :
  0 < Go.len noisy_stream <= 4000 /\
  JSONSplit noisy_stream false = Some (11, Some object_a, None) /\
  exists w0 w1 w2,
    NewJSONFilter [capture] = Some w0 /\
    Write CircularBuffer.FailFast.Write w0 noisy_stream
    = Some (w1, Go.len noisy_stream, None) /\
    Write CircularBuffer.AutoGrow.Write w0 noisy_stream
    = Some (w1, Go.len noisy_stream, None) /\
    iteration w1 = Next w2 /\
    sink w2 = [snd (run_interpreters [capture] object_a [])] /\
    Bufio.Err (scanner w2) = None /\
    Bufio.Bytes (scanner w2) = Some object_a /\
    pending_window w2 = Some (skipn (Z.to_nat 11) noisy_stream) /\
    CircularBuffer.Len (cbuf (fp w2)) = 0.
Proof.
  split; [vm_compute; split; [reflexivity | discriminate]|].
  split; [reflexivity|].
  apply (complete_object_is_delivered [capture] noisy_stream object_a 11 None);
    [vm_compute; split; [reflexivity | discriminate] | reflexivity].
Defined.
